(** * movie-mcp-server: the [search_movies] tool

    A shallow embedding of the request/response mapping of the two
    [search_movies] handlers of the repository:

    - [Index.searchMoviesHandler], the mcp-use server of [src/index.ts];
    - [Edge.searchMoviesTool], the Supabase edge function registered with
      [server.registerTool("search_movies", ...)].

    Conventions of the model.

    - A JavaScript string is a Rocq [string]: the bytes of its UTF-8
      encoding, as string literals of this file are.  Concatenation,
      emptiness and splitting on ["-"] are the same on bytes and on code
      points; [trim] knows the multi-byte encodings of the white space
      of ECMAScript.
    - A JavaScript number is the rational it denotes ([Q]); the model
      leaves out NaN and the infinities.  [binary64] tells the rationals
      that are numbers, and [binary64_round] is the rounding, to the
      nearest and to even, by which [Number] reads a numeral.
    - [async] code is a computation in the monad [Async]: it reads the
      world (environment variables, what the network answers), records
      every [fetch] it performs and either returns or throws. *)

From Stdlib Require Import String Ascii List Bool Arith ZArith QArith Qround Qabs Qpower Lia Lqa.
From Stdlib Require Import Decimal DecimalString.
From ExtLib Require Import Structures.Monad Structures.MonadExc Data.Monads.OptionMonad.
Import ListNotations.
Import MonadNotation.

Local Close Scope Q_scope.
Local Open Scope nat_scope.
Local Open Scope list_scope.
Local Open Scope string_scope.
Local Open Scope monad_scope.

Set Warnings "-register-all".

(** ** JavaScript values *)

(** A value of type [T | null | undefined], the type zod gives to a
    [.nullable().optional()] field. *)
Inductive nullish (T : Type) : Type :=
| undefined : nullish T
| null : nullish T
| value : T -> nullish T.

Arguments undefined {T}.
Arguments null {T}.
Arguments value {T} _.

(** [a ?? b] *)
Definition nullish_coalesce {T : Type} (a : nullish T) (b : T) : T :=
  match a with
  | value v => v
  | _ => b
  end.

(** What [JSON.parse] / [response.json()] produce.  An object is the list
    of its own properties. *)
Inductive json : Type :=
| JNull : json
| JBool : bool -> json
| JNumber : Q -> json
| JString : string -> json
| JArray : list json -> json
| JObject : list (string * json) -> json.

(** Property lookup on the properties of an object. *)
Fixpoint get_property (key : string) (fields : list (string * json)) : option json :=
  match fields with
  | [] => None
  | (k, v) :: rest => if String.eqb k key then Some v else get_property key rest
  end.

(** A thrown value: an instance of [Error], which carries a [message], or
    anything else. *)
Inductive thrown : Type :=
| ErrorInstance (message : string)
| NotAnError.

(** ** Strings *)

(** Truthiness of a string: [!s] is true exactly for the empty string. *)
Definition string_falsy (s : string) : bool :=
  match s with
  | EmptyString => true
  | String _ _ => false
  end.

(** [String(n)] / [`${n}`] for a non-negative integer. *)
Definition String_of_nat (n : nat) : string :=
  NilZero.string_of_uint (Nat.to_uint n).

(** [s.split(sep)] for a separator of one character: the segments between
    the occurrences of [sep], at least one. *)
Fixpoint split (sep : ascii) (s : string) : list string :=
  match s with
  | EmptyString => [EmptyString]
  | String c rest =>
      if Ascii.eqb c sep then EmptyString :: split sep rest
      else match split sep rest with
           | seg :: segs => String c seg :: segs
           | [] => [String c EmptyString]
           end
  end.

(** White space and line terminators of ECMAScript, in UTF-8: the ones of
    one byte, *)
Definition ws1 (c : ascii) : bool :=
  let n := nat_of_ascii c in
  (((9 <=? n) && (n <=? 13)) || (n =? 32))%nat.

(** of two bytes (U+00A0), *)
Definition ws2 (c1 c2 : ascii) : bool :=
  ((nat_of_ascii c1 =? 194) && (nat_of_ascii c2 =? 160))%nat.

(** and of three bytes (U+1680, U+2000 to U+200A, U+2028, U+2029, U+202F,
    U+205F, U+3000, U+FEFF). *)
Definition ws3 (c1 c2 c3 : ascii) : bool :=
  let a := nat_of_ascii c1 in
  let b := nat_of_ascii c2 in
  let c := nat_of_ascii c3 in
  (((a =? 225) && (b =? 154) && (c =? 128))
   || ((a =? 226) && (b =? 128)
       && (((128 <=? c) && (c <=? 138)) || (c =? 168) || (c =? 169) || (c =? 175)))
   || ((a =? 226) && (b =? 129) && (c =? 159))
   || ((a =? 227) && (b =? 128) && (c =? 128))
   || ((a =? 239) && (b =? 187) && (c =? 191)))%nat.

(** [s.trimStart()] *)
Fixpoint trimStart (s : string) : string :=
  match s with
  | String c1 s1 =>
      if ws1 c1 then trimStart s1
      else match s1 with
           | String c2 s2 =>
               if ws2 c1 c2 then trimStart s2
               else match s2 with
                    | String c3 s3 => if ws3 c1 c2 c3 then trimStart s3 else s
                    | EmptyString => s
                    end
           | EmptyString => s
           end
  | EmptyString => s
  end.

(** [s] consists of white space only. *)
Fixpoint all_ws (s : string) : bool :=
  match s with
  | String c1 s1 =>
      if ws1 c1 then all_ws s1
      else match s1 with
           | String c2 s2 =>
               if ws2 c1 c2 then all_ws s2
               else match s2 with
                    | String c3 s3 => if ws3 c1 c2 c3 then all_ws s3 else false
                    | EmptyString => false
                    end
           | EmptyString => false
           end
  | EmptyString => true
  end.

(** [s.trimEnd()] *)
Fixpoint trimEnd (s : string) : string :=
  match s with
  | EmptyString => EmptyString
  | String c rest => if all_ws s then EmptyString else String c (trimEnd rest)
  end.

(** [s.trim()] *)
Definition trim (s : string) : string := trimEnd (trimStart s).

(** ** Numbers *)

Local Open Scope Q_scope.

(** The integer nearest to [q], the even one of two. *)
Definition round_half_even (q : Q) : Z :=
  let f := Qfloor q in
  match Qcompare (q - inject_Z f) (1 # 2) with
  | Lt => f
  | Gt => (f + 1)%Z
  | Eq => if Z.even f then f else (f + 1)%Z
  end.

(** The integer part of the binary logarithm of a positive [q]. *)
Definition Qlog2 (q : Q) : Z :=
  let k := (Z.log2 (Qnum q) - Z.log2 (Z.pos (Qden q)))%Z in
  if Qle_bool (2 ^ k) q then k else (k - 1)%Z.

(** The exponent of the unit in which binary64 counts a number of the
    size of [q]: 53 bits of mantissa, and no unit under [2^-1074]. *)
Definition binary64_exponent (q : Q) : Z := Z.max (Qlog2 (Qabs q) - 52) (-1074).

(** The Number value of a real number under the largest binary64: the
    nearest whole number of units, the even one of two. *)
Definition binary64_round (q : Q) : Q :=
  let e := binary64_exponent q in
  inject_Z (round_half_even (q / 2 ^ e)) * 2 ^ e.

(** The value of the numeral [x.toFixed(1)] writes for [|x| < 10^21]: a
    minus sign when [x < 0], then [n/10] for the integer [n] for which
    [n/10 - |x|] is closest to zero, the larger one of two. *)
Definition toFixed1_value (x : Q) : Q :=
  let n := Qfloor (10 * Qabs x + (1 # 2)) in
  if Qle_bool 0 x then n # 10 else - (n # 10).

(** [Number(x.toFixed(1))].  Under [10^21], [Number] reads the numeral of
    [toFixed] back as the binary64 nearest to its value; from [10^21] on
    [toFixed] writes what [String(x)] writes, and [Number] reads [x]
    back. *)
Definition Number_toFixed1 (x : Q) : Q :=
  if Qle_bool (10 ^ 21) (Qabs x) then x
  else binary64_round (toFixed1_value x).

Local Close Scope Q_scope.

(** ** The types of [src/features/search-movies/types.ts] *)

(** [SearchMoviesInput] *)
Record SearchMoviesInput : Type := { query : string }.

(** [MovieCard] *)
Module Card.
Record t : Type := {
  id : Q;
  title : string;
  releaseYear : string;
  rating : Q;
  posterUrl : option string   (* string | null *)
}.
End Card.
Definition MovieCard : Type := Card.t.

(** [SearchMoviesWidgetProps]; [error] is an optional property. *)
Module Props.
Record t : Type := {
  query : string;
  movies : list MovieCard;
  error : option string
}.
End Props.
Definition SearchMoviesWidgetProps : Type := Props.t.

(** ** The world of a handler *)

(** A [URL] object: the address and its [searchParams], in order. *)
Record URL : Type := {
  href : string;
  searchParams : list (string * string)
}.

(** [url.searchParams.set(name, v)]: the first pair named [name] takes the
    value [v] and the later ones go; without such a pair, one is added at
    the end. *)
Fixpoint set_param (name v : string) (params : list (string * string))
  : list (string * string) :=
  match params with
  | [] => [(name, v)]
  | (k, old) :: rest =>
      if String.eqb k name
      then (name, v) :: filter (fun p => negb (String.eqb (fst p) name)) rest
      else (k, old) :: set_param name v rest
  end.

Definition searchParams_set (name v : string) (url : URL) : URL :=
  {| href := href url; searchParams := set_param name v (searchParams url) |}.

(** A [Response]: its [status], and what [response.json()] settles to, the
    parsed body or the thrown error. *)
Record Response : Type := {
  status : nat;
  json_body : thrown + json
}.

(** [response.ok]: the status is in the range 200 to 299. *)
Definition ok (response : Response) : bool :=
  ((200 <=? status response) && (status response <=? 299))%nat.

(** What lies outside the handlers: the environment variables of the
    process, the answer of the network to a request (a response, or the
    error that [fetch] rejects with), and the message zod gives to the
    [ZodError] it throws on a value that does not fit a schema. *)
Record World : Type := {
  env : string -> option string;
  network : URL -> thrown + Response;
  ZodError_message : json -> string
}.

(** An [async] computation: it reads the world, adds the requests it
    sends to the ones sent so far, and returns a value or throws. *)
Definition Async (A : Type) : Type :=
  World -> list URL -> (thrown + A) * list URL.

#[global] Instance Monad_Async : Monad Async := {
  ret := fun A (a : A) => fun _ sent => (inr a, sent);
  bind := fun A B (c : Async A) (k : A -> Async B) => fun w sent =>
    match c w sent with
    | (inr a, sent') => k a w sent'
    | (inl e, sent') => (inl e, sent')
    end
}.

(** [throw] and [try { ... } catch (error) { ... }] *)
#[global] Instance Exception_Async : MonadExc thrown Async := {
  raise := fun A (e : thrown) => fun _ sent => (inl e, sent);
  catch := fun A (body : Async A) (handler : thrown -> Async A) => fun w sent =>
    match body w sent with
    | (inr a, sent') => (inr a, sent')
    | (inl e, sent') => handler e w sent'
    end
}.

(** [process.env.NAME] and [Deno.env.get(NAME)] *)
Definition getenv (name : string) : Async (option string) :=
  fun w sent => (inr (env w name), sent).

(** [await fetch(url)] *)
Definition fetch (url : URL) : Async Response :=
  fun w sent =>
    match network w url with
    | inr response => (inr response, (sent ++ [url])%list)
    | inl e => (inl e, (sent ++ [url])%list)
    end.

(** [await response.json()] *)
Definition Response_json (response : Response) : Async json :=
  fun _ sent => (json_body response, sent).

(** A handler started with nothing sent yet. *)
Definition run {A : Type} (c : Async A) (w : World) : (thrown + A) * list URL :=
  c w [].

(** [if (!apiKey)]: past the test, [apiKey] is a non-empty string. *)
Definition truthy (v : option string) : option string :=
  match v with
  | Some s => if string_falsy s then None else Some s
  | None => None
  end.

(** ** What the two servers share *)

Definition TMDB_SEARCH_URL : string := "https://api.themoviedb.org/3/search/movie".
Definition TMDB_POSTER_BASE_URL : string := "https://image.tmdb.org/t/p/w500".

(** The double quote character of the template strings. *)
Definition dquote : string := String (ascii_of_nat 34) EmptyString.

(** An element of [results] once parsed by [tmdbSearchResponseSchema]. *)
Module Raw.
Record t : Type := {
  id : Q;
  title : string;
  release_date : nullish string;
  vote_average : nullish Q;
  poster_path : nullish string
}.
End Raw.
Definition TmdbMovie : Type := Raw.t.

(** [z.infer<typeof tmdbSearchResponseSchema>] *)
Record TmdbSearchResponse : Type := { results : list TmdbMovie }.

(** [z.number()] and [z.string()] *)
Definition z_number (v : json) : option Q :=
  match v with
  | JNumber q => Some q
  | _ => None
  end.

Definition z_string (v : json) : option string :=
  match v with
  | JString s => Some s
  | _ => None
  end.

(** A required property of a [z.object]. *)
Definition z_required {T : Type} (schema : json -> option T) (prop : option json)
  : option T :=
  match prop with
  | Some v => schema v
  | None => None
  end.

(** [schema.nullable().optional()] on a property: a missing property is
    [undefined], [null] stays [null]. *)
Definition z_nullable_optional {T : Type} (schema : json -> option T)
  (prop : option json) : option (nullish T) :=
  match prop with
  | None => Some undefined
  | Some JNull => Some null
  | Some v => match schema v with
              | Some x => Some (value x)
              | None => None
              end
  end.

(** [z.array(schema)] on the elements of an array. *)
Fixpoint z_array {T : Type} (schema : json -> option T) (elements : list json)
  : option (list T) :=
  match elements with
  | [] => Some []
  | v :: rest =>
      match schema v, z_array schema rest with
      | Some x, Some xs => Some (x :: xs)
      | _, _ => None
      end
  end.

(** The [z.object] of one result; properties it does not name are
    dropped. *)
Definition tmdbMovieSchema (v : json) : option TmdbMovie :=
  match v with
  | JObject fields =>
      id <- z_required z_number (get_property "id" fields) ;;
      title <- z_required z_string (get_property "title" fields) ;;
      release_date <- z_nullable_optional z_string (get_property "release_date" fields) ;;
      vote_average <- z_nullable_optional z_number (get_property "vote_average" fields) ;;
      poster_path <- z_nullable_optional z_string (get_property "poster_path" fields) ;;
      ret {| Raw.id := id; Raw.title := title; Raw.release_date := release_date;
             Raw.vote_average := vote_average; Raw.poster_path := poster_path |}
  | _ => None
  end.

(** [tmdbSearchResponseSchema], as a check that returns the parsed value
    or nothing. *)
Definition tmdbSearchResponseSchema (v : json) : option TmdbSearchResponse :=
  match v with
  | JObject fields =>
      match get_property "results" fields with
      | Some (JArray elements) =>
          results <- z_array tmdbMovieSchema elements ;;
          ret {| results := results |}
      | _ => None
      end
  | _ => None
  end.

(** [tmdbSearchResponseSchema.parse(v)]: the parsed value, or a thrown
    [ZodError], an instance of [Error]. *)
Definition ZodError (v : json) : Async thrown :=
  fun w sent => (inr (ErrorInstance (ZodError_message w v)), sent).

Definition tmdbSearchResponseSchema_parse (v : json) : Async TmdbSearchResponse :=
  match tmdbSearchResponseSchema v with
  | Some payload => ret payload
  | None => error <- ZodError v ;; raise error
  end.

(** [formatReleaseYear] *)
Definition formatReleaseYear (releaseDate : nullish string) : string :=
  match releaseDate with
  | value date =>
      if string_falsy date then "N/A"
      else match split "-" date with
           | year :: _ => if string_falsy year then "N/A" else year
           | [] => "N/A"
           end
  | _ => "N/A"
  end.

(** [buildPosterUrl] *)
Definition buildPosterUrl (posterPath : nullish string) : option string :=
  match posterPath with
  | value path =>
      if string_falsy path then None
      else Some (TMDB_POSTER_BASE_URL ++ path)
  | _ => None
  end.

(** [mapTmdbMovieToCard]; the edge function has the same record inline in
    its [map]. *)
Definition mapTmdbMovieToCard (movie : TmdbMovie) : MovieCard :=
  {| Card.id := Raw.id movie;
     Card.title := Raw.title movie;
     Card.releaseYear := formatReleaseYear (Raw.release_date movie);
     Card.rating := Number_toFixed1 (nullish_coalesce (Raw.vote_average movie) 0%Q);
     Card.posterUrl := buildPosterUrl (Raw.poster_path movie) |}.

(** [array.slice(start, stop)] for indices that are not negative. *)
Definition slice {T : Type} (start stop : nat) (array : list T) : list T :=
  firstn (stop - start) (skipn start array).

(** The request both handlers build. *)
Definition search_url (apiKey query : string) : URL :=
  let url := {| href := TMDB_SEARCH_URL; searchParams := [] |} in
  let url := searchParams_set "api_key" apiKey url in
  let url := searchParams_set "query" query url in
  let url := searchParams_set "page" "1" url in
  let url := searchParams_set "include_adult" "false" url in
  url.

(** [error instanceof Error ? error.message : "Unknown network error"] *)
Definition error_message (error : thrown) : string :=
  match error with
  | ErrorInstance message => message
  | NotAnError => "Unknown network error"
  end.

(** [body?.status_message && typeof body.status_message === "string"]:
    the non-empty string under [status_message], if any. *)
Definition status_message (body : json) : option string :=
  match body with
  | JObject fields =>
      match get_property "status_message" fields with
      | Some (JString s) => if string_falsy s then None else Some s
      | _ => None
      end
  | _ => None
  end.

(** ** [src/index.ts]: the mcp-use server *)

Module Index.

(** What [widget({ props, output: text(modelMessage) })] carries: the
    structured payload of the widget and the text for the model. *)
Record WidgetResponse : Type := {
  props : SearchMoviesWidgetProps;
  output : string
}.

(** [buildSearchMoviesWidgetResponse] *)
Definition buildSearchMoviesWidgetResponse (props : SearchMoviesWidgetProps)
  (modelMessage : string) : WidgetResponse :=
  {| props := props; output := modelMessage |}.

(** [searchMoviesHandler] *)
Definition searchMoviesHandler (input : SearchMoviesInput) : Async WidgetResponse :=
  let query := query input in
  apiKey <- getenv "TMDB_API_KEY" ;;
  match truthy apiKey with
  | None =>
      ret (buildSearchMoviesWidgetResponse
             {| Props.query := query;
                Props.movies := [];
                Props.error := Some "TMDB API key is missing. Set TMDB_API_KEY and try again." |}
             "Movie search failed because the TMDB API key is not configured.")
  | Some apiKey =>
      catch
        (response <- fetch (search_url apiKey query) ;;
         if negb (ok response) then
           details <- catch
                        (body <- Response_json response ;;
                         match status_message body with
                         | Some message => ret (" " ++ message)
                         | None => ret EmptyString
                         end)
                        (fun _ => ret EmptyString) ;;
           ret (buildSearchMoviesWidgetResponse
                  {| Props.query := query;
                     Props.movies := [];
                     Props.error :=
                       Some (trim ("TMDB request failed with status "
                                   ++ String_of_nat (status response) ++ "." ++ details)) |}
                  "Movie search failed due to an external API error.")
         else
           body <- Response_json response ;;
           payload <- tmdbSearchResponseSchema_parse body ;;
           let movies := map mapTmdbMovieToCard (slice 0 3 (results payload)) in
           if (length movies =? 0)%nat then
             ret (buildSearchMoviesWidgetResponse
                    {| Props.query := query;
                       Props.movies := [];
                       Props.error := Some "No movies found for this query." |}
                    ("No movies found for " ++ dquote ++ query ++ dquote ++ "."))
           else
             ret (buildSearchMoviesWidgetResponse
                    {| Props.query := query;
                       Props.movies := movies;
                       Props.error := None |}
                    ("Found " ++ String_of_nat (length movies)
                     ++ " movie result(s) for " ++ dquote ++ query ++ dquote ++ ".")))
        (fun error =>
           let message := error_message error in
           ret (buildSearchMoviesWidgetResponse
                  {| Props.query := query;
                     Props.movies := [];
                     Props.error :=
                       Some ("Unable to fetch movie results right now: " ++ message) |}
                  "Movie search failed due to a network or parsing error."))
  end.

End Index.

(** ** The Supabase edge function *)

Module Edge.

(** An element of [content]. *)
Record TextContent : Type := {
  type : string;
  text : string
}.

(** The result of a tool call. *)
Record ToolResult : Type := {
  content : list TextContent;
  structuredContent : SearchMoviesWidgetProps
}.

(** The handler registered as [search_movies]. *)
Definition searchMoviesTool (input : SearchMoviesInput) : Async ToolResult :=
  let query := query input in
  apiKey <- getenv "TMDB_API_KEY" ;;
  match truthy apiKey with
  | None =>
      ret {| content :=
               [ {| type := "text";
                    text := "Movie search failed because TMDB_API_KEY is not configured." |} ];
             structuredContent :=
               {| Props.query := query;
                  Props.movies := [];
                  Props.error := Some "TMDB API key is missing. Set TMDB_API_KEY and try again." |} |}
  | Some apiKey =>
      catch
        (response <- fetch (search_url apiKey query) ;;
         if negb (ok response) then
           ret {| content :=
                    [ {| type := "text";
                         text := "Movie search failed due to an external API error." |} ];
                  structuredContent :=
                    {| Props.query := query;
                       Props.movies := [];
                       Props.error :=
                         Some ("TMDB request failed with status "
                               ++ String_of_nat (status response) ++ ".") |} |}
         else
           body <- Response_json response ;;
           parsed <- tmdbSearchResponseSchema_parse body ;;
           let movies := map mapTmdbMovieToCard (slice 0 3 (results parsed)) in
           if (length movies =? 0)%nat then
             ret {| content :=
                      [ {| type := "text";
                           text := "No movies found for " ++ dquote ++ query ++ dquote ++ "." |} ];
                    structuredContent :=
                      {| Props.query := query;
                         Props.movies := [];
                         Props.error := Some "No movies found for this query." |} |}
           else
             ret {| content :=
                      [ {| type := "text";
                           text := "Found " ++ String_of_nat (length movies)
                                   ++ " movie result(s) for " ++ dquote ++ query ++ dquote ++ "." |} ];
                    structuredContent :=
                      {| Props.query := query;
                         Props.movies := movies;
                         Props.error := None |} |})
        (fun error =>
           let message := error_message error in
           ret {| content :=
                    [ {| type := "text";
                         text := "Movie search failed due to a network or parsing error." |} ];
                  structuredContent :=
                    {| Props.query := query;
                       Props.movies := [];
                       Props.error :=
                         Some ("Unable to fetch movie results right now: " ++ message) |} |})
  end.

End Edge.

(** ** The edge function: routing and CORS *)

(** [s.startsWith(p)], with what follows [p] in [s]. *)
Fixpoint after_prefix (p s : string) : option string :=
  match p, s with
  | EmptyString, _ => Some s
  | String a p', String b s' => if Ascii.eqb a b then after_prefix p' s' else None
  | String _ _, EmptyString => None
  end.

(** The greedy [[^/]+] of the two regular expressions, read from the start
    of [s]: the longest prefix without a slash, and what is left. *)
Fixpoint span_segment (s : string) : string * string :=
  match s with
  | EmptyString => (EmptyString, EmptyString)
  | String c rest =>
      if Ascii.eqb c "/" then (EmptyString, s)
      else let (name, tail) := span_segment rest in (String c name, tail)
  end.

(** The line terminators, which [.] does not match: LF, CR, U+2028 and
    U+2029. *)
Fixpoint has_line_terminator (s : string) : bool :=
  match s with
  | EmptyString => false
  | String c1 s1 =>
      ((nat_of_ascii c1 =? 10) || (nat_of_ascii c1 =? 13))%nat
      || match s1 with
         | String c2 (String c3 _) =>
             ((nat_of_ascii c1 =? 226) && (nat_of_ascii c2 =? 128)
              && ((nat_of_ascii c3 =? 168) || (nat_of_ascii c3 =? 169)))%nat
         | _ => false
         end
      || has_line_terminator s1
  end.

(** The match of the common tail of the two regular expressions, a group
    [[^/]+] and an optional group made of a slash and any characters up to
    the end, at the start of [s]: nothing when [s] does not match, else
    the first group and the second, which is undefined when [s] is one
    segment. *)
Definition match_segment_tail (s : string) : option (string * option string) :=
  let (name, rest) := span_segment s in
  if string_falsy name then None
  else match rest with
       | EmptyString => Some (name, None)
       | String _ tail =>
           if has_line_terminator tail then None else Some (name, Some rest)
       end.

(** The first [pathname.match], of a path under [/functions/v1/<name>]:
    group 1 of a match. *)
Definition functionsMatch (pathname : string) : option (option string) :=
  match after_prefix "/functions/v1/" pathname with
  | Some s => option_map snd (match_segment_tail s)
  | None => None
  end.

(** The second [pathname.match], of a path under [/<name>]: groups 1 and
    2 of a match. *)
Definition functionNameMatch (pathname : string) : option (string * option string) :=
  match after_prefix "/" pathname with
  | Some s => match_segment_tail s
  | None => None
  end.

(** [rewriteSupabasePath] *)
Definition rewriteSupabasePath (pathname : string) : string :=
  match functionsMatch pathname with
  | Some group1 =>
      match group1 with
      | Some g => if string_falsy g then "/" else g
      | None => "/"
      end
  | None =>
      match functionNameMatch pathname with
      | Some (_, Some group2) => if string_falsy group2 then pathname else group2
      | _ => pathname
      end
  end.

(** [corsHeaders], in the order of [Object.entries]. *)
Definition corsHeaders : list (string * string) :=
  [ ("Access-Control-Allow-Origin", "*");
    ("Access-Control-Allow-Headers",
     "authorization, x-client-info, apikey, content-type, mcp-session-id, mcp-protocol-version, last-event-id");
    ("Access-Control-Allow-Methods", "GET,POST,DELETE,OPTIONS") ].

Module Http.

(** The byte-lowercase form under which [Headers] keeps and compares
    names. *)
Definition lower (c : ascii) : ascii :=
  let n := nat_of_ascii c in
  if ((65 <=? n) && (n <=? 90))%nat then ascii_of_nat (n + 32) else c.

Fixpoint lowercase (s : string) : string :=
  match s with
  | EmptyString => EmptyString
  | String c rest => String (lower c) (lowercase rest)
  end.

(** A [Headers] object: its list of names, in lowercase, and values. *)
Definition Headers : Type := list (string * string).

(** [headers.append(name, v)], for a valid name and a value without white
    space around it, as the ones of [corsHeaders] are. *)
Definition append (name v : string) (headers : Headers) : Headers :=
  (headers ++ [(lowercase name, v)])%list.

(** [headers.set(name, v)], for such a name and value: the first header of
    that name takes the value and the others of that name go; without one,
    the header is appended. *)
Fixpoint set_lowered (name v : string) (headers : Headers) : Headers :=
  match headers with
  | [] => [(name, v)]
  | (k, old) :: rest =>
      if String.eqb k name
      then (name, v) :: filter (fun h => negb (String.eqb (fst h) name)) rest
      else (k, old) :: set_lowered name v rest
  end.

Definition set (name v : string) (headers : Headers) : Headers :=
  set_lowered (lowercase name) v headers.

(** [headers.get(name)]: the values of the headers of that name, joined
    by a comma and a space; null without one. *)
Definition get (name : string) (headers : Headers) : option string :=
  match filter (fun h => String.eqb (fst h) (lowercase name)) headers with
  | [] => None
  | values => Some (String.concat ", " (map snd values))
  end.

(** [new Headers(record)] *)
Definition of_record (record : list (string * string)) : Headers :=
  fold_left (fun headers entry => append (fst entry) (snd entry) headers) record [].

(** The body given to [new Response]: a string, or the [body] of another
    response, a stream or null. *)
Inductive BodyInit : Type :=
| text (s : string)
| stream (content : option string).

(** A [Response] of the server; [body] is null or the bytes it delivers. *)
Record Response : Type := {
  status : nat;
  statusText : string;
  headers : Headers;
  body : option string
}.

(** [new Response(body, { status, statusText, headers })], for a status
    the constructor accepts: a string body brings its content type when
    the headers have none. *)
Definition new_Response (init : BodyInit) (status : nat) (statusText : string)
  (headers : Headers) : Response :=
  match init with
  | text s =>
      {| status := status;
         statusText := statusText;
         headers := match get "content-type" headers with
                    | Some _ => headers
                    | None => append "content-type" "text/plain;charset=UTF-8" headers
                    end;
         body := Some s |}
  | stream content =>
      {| status := status; statusText := statusText; headers := headers; body := content |}
  end.

(** A [Request]: its method and the [pathname] of [new URL(req.url)]. *)
Record Request : Type := {
  method : string;
  pathname : string
}.

(** The handler given to [Deno.serve].  [transport] is what a fresh server
    and transport answer to the request ([server.connect(transport)], then
    [transport.handleRequest(req)]): a response, or a thrown error. *)
Definition serve (transport : Request -> thrown + Response) (req : Request)
  : thrown + Response :=
  if String.eqb (method req) "OPTIONS" then
    inr (new_Response (text "ok") 200 EmptyString (of_record corsHeaders))
  else
    let path := rewriteSupabasePath (pathname req) in
    if negb (String.eqb path "/mcp") then
      inr (new_Response (text "Not Found") 404 EmptyString (of_record corsHeaders))
    else
      match transport req with
      | inl e => inl e
      | inr response =>
          let headers :=
            fold_left (fun headers entry => set (fst entry) (snd entry) headers)
              corsHeaders (headers response) in
          inr (new_Response (stream (body response)) (status response)
                 (statusText response) headers)
      end.

End Http.

(** ** The script of the widget *)

(** [s.replaceAll(c, replacement)] for a pattern of one character and a
    replacement without [$]. *)
Fixpoint replaceAll (c : ascii) (replacement : string) (s : string) : string :=
  match s with
  | EmptyString => EmptyString
  | String a rest =>
      if Ascii.eqb a c then replacement ++ replaceAll c replacement rest
      else String a (replaceAll c replacement rest)
  end.

(** [esc], on the strings and nulls it is given. *)
Definition esc (v : nullish string) : string :=
  replaceAll "'" "&#39;"
    (replaceAll (ascii_of_nat 34) "&quot;"
       (replaceAll ">" "&gt;"
          (replaceAll "<" "&lt;"
             (replaceAll "&" "&amp;" (nullish_coalesce v EmptyString))))).

(** ** Vocabulary of the properties *)

(** [needle] occurs in [s]. *)
Definition occurs_in (needle s : string) : Prop :=
  exists before after, s = before ++ needle ++ after.

(** A scan of [haystack] for [needle], to decide [occurs_in] on given
    strings. *)
Fixpoint includes (needle haystack : string) : bool :=
  if String.prefix needle haystack then true
  else match haystack with
       | EmptyString => false
       | String _ rest => includes needle rest
       end.

(** No ["-"] in [s]. *)
Definition dash_free (s : string) : Prop := ~ occurs_in "-" s.

(** The ways a search fails with an exception [e] once the key is there:
    [fetch] rejects, the body of a 2xx response is not JSON, or the JSON of
    a 2xx response does not fit [tmdbSearchResponseSchema]. *)
Inductive search_throws (w : World) (url : URL) : thrown -> Prop :=
| fetch_rejects e :
    network w url = inl e ->
    search_throws w url e
| body_not_json response e :
    network w url = inr response ->
    ok response = true ->
    json_body response = inl e ->
    search_throws w url e
| body_misfit response body :
    network w url = inr response ->
    ok response = true ->
    json_body response = inr body ->
    tmdbSearchResponseSchema body = None ->
    search_throws w url (ErrorInstance (ZodError_message w body)).

(** The finite numbers of JavaScript: [m * 2^e] with a mantissa of 53 bits
    and an exponent in the range of binary64. *)
Definition binary64 (x : Q) : Prop :=
  exists m e : Z,
    (Z.abs m < 2 ^ 53)%Z /\ (-1074 <= e <= 971)%Z /\ (x == inject_Z m * 2 ^ e)%Q.

(** [n/10] is as near to [x] as a number of tenths can be, and of two
    that are, it is the one further from zero. *)
Definition nearest_tenth (x : Q) (n : Z) : Prop :=
  forall k : Z,
    (Qabs ((n # 10) - x) <= Qabs ((k # 10) - x))%Q
    /\ ((Qabs ((k # 10) - x) <= Qabs ((n # 10) - x))%Q -> (Z.abs k <= Z.abs n)%Z).

(** [r] is a binary64 as near to [d] as a binary64 can be. *)
Definition nearest_binary64 (d r : Q) : Prop :=
  binary64 r /\ forall y, binary64 y -> (Qabs (r - d) <= Qabs (y - d))%Q.

(** What the error body of a failed response adds to the status line
    before [trim]: a space and the [status_message], when [response.json()]
    settles to a value that has one. *)
Definition error_details (response : Response) : string :=
  match json_body response with
  | inr body =>
      match status_message body with
      | Some message => " " ++ message
      | None => EmptyString
      end
  | inl _ => EmptyString
  end.

(** The error of an HTTP failure, before any detail. *)
Definition status_line (code : nat) : string :=
  "TMDB request failed with status " ++ String_of_nat code ++ ".".

(** The test of both widgets for their empty state,
    [!props.error && movies.length === 0]. *)
Definition shows_empty_state (props : SearchMoviesWidgetProps) : bool :=
  match Props.error props with
  | Some e => string_falsy e
  | None => true
  end
  && (length (Props.movies props) =? 0)%nat.

(** The environment with [TMDB_API_KEY] set to [key] and nothing else. *)
Definition env_with_key (key : string) : string -> option string :=
  fun name => if String.eqb name "TMDB_API_KEY" then Some key else None.

(** ** Sample worlds *)

(** A world where the key is set and every request gets [response]. *)
Definition world_answering (response : Response) : World :=
  {| env := env_with_key "secret";
     network := fun _ => inr response;
     ZodError_message := fun _ => "Invalid input" |}.

(** A world where the key is set and [fetch] rejects with [e]. *)
Definition world_offline (e : thrown) : World :=
  {| env := env_with_key "secret";
     network := fun _ => inl e;
     ZodError_message := fun _ => "Invalid input" |}.

(** A world without [TMDB_API_KEY]. *)
Definition world_without_key : World :=
  {| env := fun _ => None;
     network := fun _ => inl (ErrorInstance "fetch failed");
     ZodError_message := fun _ => "Invalid input" |}.

(** The number written [7.666]: the binary64 nearest to it. *)
Definition seven_point_666 : Q := (2157787171463889 # 281474976710656)%Q.

(** The number written [7.7], and the one written [8.3]. *)
Definition seven_point_7 : Q := (8669429282688205 # 1125899906842624)%Q.
Definition eight_point_3 : Q := (2336242306698445 # 281474976710656)%Q.

(** A parsed result with the three optional properties as given. *)
Definition the_matrix (release_date : nullish string) (vote_average : nullish Q)
  (poster_path : nullish string) : TmdbMovie :=
  {| Raw.id := 603%Q;
     Raw.title := "The Matrix";
     Raw.release_date := release_date;
     Raw.vote_average := vote_average;
     Raw.poster_path := poster_path |}.

(** One result of the provider, with every property. *)
Definition full_result (id : Z) (title : string) : json :=
  JObject [ ("id", JNumber (inject_Z id));
            ("title", JString title);
            ("release_date", JString "1999-03-31");
            ("vote_average", JNumber seven_point_666);
            ("poster_path", JString "/abc.jpg");
            ("overview", JString "A film.") ].

(** One result with the required properties only. *)
Definition bare_result (id : Z) (title : string) : json :=
  JObject [ ("id", JNumber (inject_Z id)); ("title", JString title) ].

Definition four_results : list json :=
  [ full_result 603 "The Matrix"; bare_result 604 "The Matrix Reloaded";
    full_result 605 "The Matrix Revolutions"; full_result 624860 "The Matrix Resurrections" ].

Definition search_body (elements : list json) : json :=
  JObject [ ("page", JNumber 1); ("results", JArray elements) ].

Definition matrix : SearchMoviesInput := {| query := "Matrix" |}.

(** A 200 whose body is an HTML page: [response.json()] rejects with a
    [SyntaxError]. *)
Definition html_page : Response :=
  {| status := 200;
     json_body := inl (ErrorInstance "Unexpected token < in JSON at position 0") |}.

(** The body TMDB sends with a 401, and the response that carries it. *)
Definition invalid_key_body : json :=
  JObject [ ("status_code", JNumber 7);
            ("status_message", JString "Invalid API key: You must be granted a valid key.");
            ("success", JBool false) ].

Definition unauthorized : Response :=
  {| status := 401; json_body := inr invalid_key_body |}.

(** A result without its title, and a list where it comes fourth. *)
Definition untitled_result : json := JObject [ ("id", JNumber 9) ].

Definition bad_fourth_result : list json :=
  [ full_result 603 "The Matrix"; full_result 604 "The Matrix Reloaded";
    full_result 605 "The Matrix Revolutions"; untitled_result ].

(** A world with more in it than [world_answering unauthorized] has:
    another environment variable, and another answer at other addresses. *)
Definition busy_world : World :=
  {| env := fun name =>
              if String.eqb name "MCP_URL" then Some "http://localhost:3000"
              else env_with_key "secret" name;
     network := fun url =>
                  if String.eqb (href url) TMDB_SEARCH_URL then inr unauthorized
                  else inr html_page;
     ZodError_message := fun _ => "Invalid input" |}.

(** ** Vocabulary of the further properties *)

(** No slash in [s]. *)
Definition slash_free (s : string) : Prop := ~ occurs_in "/" s.

(** The paths that the edge function hands to the MCP transport: [/mcp],
    [/functions/v1/<name>/mcp] and [/<name>/mcp], for a name that is one
    segment. *)
Definition mcp_route (pathname : string) : Prop :=
  pathname = "/mcp"
  \/ exists name,
       name <> EmptyString /\ slash_free name
       /\ (pathname = "/functions/v1/" ++ name ++ "/mcp"
           \/ pathname = "/" ++ name ++ "/mcp").

(** Every character of [s] passes the test [p]. *)
Fixpoint all_chars (p : ascii -> bool) (s : string) : bool :=
  match s with
  | EmptyString => true
  | String c rest => p c && all_chars p rest
  end.

(** The characters that end a text or an attribute value in HTML. *)
Definition ends_text (c : ascii) : bool :=
  Ascii.eqb c "<" || Ascii.eqb c ">" || Ascii.eqb c (ascii_of_nat 34) || Ascii.eqb c "'".

(** The character reference of a character that has one in [esc]; the
    character itself otherwise. *)
Definition char_reference (c : ascii) : string :=
  if Ascii.eqb c "&" then "&amp;"
  else if Ascii.eqb c "<" then "&lt;"
  else if Ascii.eqb c ">" then "&gt;"
  else if Ascii.eqb c (ascii_of_nat 34) then "&quot;"
  else if Ascii.eqb c "'" then "&#39;"
  else String c EmptyString.

Definition starts_with (p s : string) : bool :=
  match after_prefix p s with
  | Some _ => true
  | None => false
  end.

(** What an HTML parser reads back from the five character references
    that [esc] writes; any other text stays.  [skip] characters are passed
    over first: the rest of a reference just read. *)
Fixpoint unescape_from (skip : nat) (s : string) : string :=
  match s with
  | EmptyString => EmptyString
  | String c rest =>
      match skip with
      | S k => unescape_from k rest
      | O =>
          if starts_with "&amp;" s then String "&" (unescape_from 4 rest)
          else if starts_with "&lt;" s then String "<" (unescape_from 3 rest)
          else if starts_with "&gt;" s then String ">" (unescape_from 3 rest)
          else if starts_with "&quot;" s
               then String (ascii_of_nat 34) (unescape_from 5 rest)
          else if starts_with "&#39;" s then String "'" (unescape_from 4 rest)
          else String c (unescape_from 0 rest)
      end
  end.

Definition unescape (s : string) : string := unescape_from 0 s.

(** ** Strings: lemmas *)

Lemma append_nil_r (s : string) : s ++ EmptyString = s.
Proof. induction s as [|c s IH]; simpl; [reflexivity | now rewrite IH]. Qed.

Lemma append_assoc (a b c : string) : (a ++ b) ++ c = a ++ (b ++ c).
Proof. induction a as [|x a IH]; simpl; [reflexivity | now rewrite IH]. Qed.

Lemma prefix_append (p s : string) : String.prefix p (p ++ s) = true.
Proof.
  induction p as [|c p IH]; simpl.
  - now destruct s.
  - destruct (ascii_dec c c) as [_|N]; [exact IH | now elim N].
Qed.

Lemma includes_unfold (needle s : string) :
  includes needle s =
  if String.prefix needle s then true
  else match s with
       | EmptyString => false
       | String _ rest => includes needle rest
       end.
Proof. destruct s; reflexivity. Qed.

Lemma occurs_in_includes (needle s : string) :
  occurs_in needle s -> includes needle s = true.
Proof.
  intros (before & after & ->).
  induction before as [|c before IH]; rewrite includes_unfold.
  - simpl. now rewrite prefix_append.
  - change (String c before ++ needle ++ after)
      with (String c (before ++ needle ++ after)).
    destruct (String.prefix needle (String c (before ++ needle ++ after)));
      [reflexivity | exact IH].
Qed.

Lemma dash_free_cons (c : ascii) (s : string) :
  dash_free (String c s) -> Ascii.eqb c "-" = false /\ dash_free s.
Proof.
  intros H. split.
  - destruct (Ascii.eqb_spec c "-") as [->|]; [|reflexivity].
    elim H. exists EmptyString, s. reflexivity.
  - intros (a & b & ->). apply H. exists (String c a), b. reflexivity.
Qed.

Lemma split_dash_free (s : string) : dash_free s -> split "-" s = [s].
Proof.
  induction s as [|c s IH]; intros H; simpl; [reflexivity|].
  apply dash_free_cons in H as [-> H]. now rewrite (IH H).
Qed.

Lemma split_at_first_dash (year rest : string) :
  dash_free year ->
  exists segments, split "-" (year ++ "-" ++ rest) = year :: segments.
Proof.
  induction year as [|c year IH]; intros H; simpl.
  - now eexists.
  - apply dash_free_cons in H as [-> H].
    destruct (IH H) as (segments & E). simpl in E. rewrite E. now eexists.
Qed.

Lemma ws2_dot_r (c : ascii) : ws2 c "." = false.
Proof. unfold ws2. change (nat_of_ascii ".") with 46. apply andb_false_r. Qed.

Lemma ws3_dot_2 (c1 c3 : ascii) : ws3 c1 "." c3 = false.
Proof.
  unfold ws3. change (nat_of_ascii ".") with 46.
  change (46 =? 154)%nat with false. change (46 =? 128)%nat with false.
  change (46 =? 129)%nat with false. change (46 =? 187)%nat with false.
  now rewrite ?andb_false_r, ?andb_false_l.
Qed.

Lemma ws3_dot_3 (c1 c2 : ascii) : ws3 c1 c2 "." = false.
Proof.
  unfold ws3. change (nat_of_ascii ".") with 46.
  change (46 =? 128)%nat with false. change (128 <=? 46)%nat with false.
  change (46 =? 168)%nat with false. change (46 =? 169)%nat with false.
  change (46 =? 175)%nat with false. change (46 =? 159)%nat with false.
  change (46 =? 191)%nat with false.
  now rewrite ?andb_false_r, ?andb_false_l.
Qed.

Lemma all_ws_dot (d : string) : all_ws (String "." d) = false.
Proof. destruct d as [|c2 [|c3 d]]; reflexivity. Qed.

(** White space never runs across a full stop. *)
Lemma all_ws_before_dot (d : string) (n : nat) :
  forall x : string, String.length x <= n -> all_ws (x ++ String "." d) = false.
Proof.
  induction n as [|n IH]; intros x Hlen.
  - destruct x; [|simpl in Hlen; lia]. apply all_ws_dot.
  - destruct x as [|c1 x]; [apply all_ws_dot|].
    simpl in Hlen. simpl. destruct (ws1 c1); [apply IH; lia|].
    destruct x as [|c2 x]; simpl.
    + rewrite ws2_dot_r. destruct d as [|c3 d]; [reflexivity|].
      now rewrite ws3_dot_2.
    + simpl in Hlen. destruct (ws2 c1 c2); [apply IH; lia|].
      destruct x as [|c3 x]; simpl.
      * now rewrite ws3_dot_3.
      * simpl in Hlen. destruct (ws3 c1 c2 c3); [apply IH; lia | reflexivity].
Qed.

Lemma trimEnd_unfold (c : ascii) (s : string) :
  trimEnd (String c s) = if all_ws (String c s) then EmptyString else String c (trimEnd s).
Proof. reflexivity. Qed.

Lemma trimEnd_after_dot (a d : string) :
  trimEnd (a ++ String "." d) = a ++ String "." (trimEnd d).
Proof.
  induction a as [|c a IH].
  - change (EmptyString ++ String "." d) with (String "." d).
    rewrite trimEnd_unfold.
    now rewrite all_ws_dot.
  - change (String c a ++ String "." d) with (String c (a ++ String "." d)).
    rewrite trimEnd_unfold.
    pose proof (all_ws_before_dot d _ (String c a) (le_n _)) as Hd.
    change (String c a ++ String "." d) with (String c (a ++ String "." d)) in Hd.
    now rewrite Hd, IH.
Qed.

(** The status line of an HTTP failure loses nothing to [trim] but the
    white space at the end of the detail. *)
Lemma trim_status_line (digits details : string) :
  trim ("TMDB request failed with status " ++ digits ++ "." ++ details)
  = "TMDB request failed with status " ++ digits ++ "." ++ trimEnd details.
Proof.
  unfold trim.
  replace (trimStart ("TMDB request failed with status " ++ digits ++ "." ++ details))
    with (("TMDB request failed with status " ++ digits) ++ String "." details)
    by (rewrite append_assoc; reflexivity).
  rewrite trimEnd_after_dot, append_assoc. reflexivity.
Qed.

Lemma trimEnd_fixed_not_blank (s : string) :
  s <> EmptyString -> trimEnd s = s -> all_ws s = false.
Proof.
  intros Hne Hfix. destruct s as [|c s]; [now elim Hne|].
  rewrite trimEnd_unfold in Hfix.
  destruct (all_ws (String c s)); [discriminate | reflexivity].
Qed.

Lemma trimEnd_after_space (s : string) :
  all_ws s = false -> trimEnd (" " ++ s) = " " ++ trimEnd s.
Proof.
  intros H. change (" " ++ s) with (String " " s). rewrite trimEnd_unfold.
  change (all_ws (String " " s)) with (all_ws s). now rewrite H.
Qed.

Lemma dash_free_by_scan (s : string) : includes "-" s = false -> dash_free s.
Proof.
  intros Hscan Hocc. apply occurs_in_includes in Hocc. congruence.
Qed.

(** ** The schema: lemmas *)

Lemma z_array_length {T : Type} (schema : json -> option T) (elements : list json) :
  forall parsed, z_array schema elements = Some parsed ->
                 length parsed = length elements.
Proof.
  induction elements as [|v elements IH]; intros parsed H; simpl in H.
  - now inversion H.
  - destruct (schema v); [|discriminate].
    destruct (z_array schema elements) as [xs|]; [|discriminate].
    inversion H; subst. simpl. now rewrite (IH xs).
Qed.

Lemma z_array_nth {T : Type} (schema : json -> option T) (elements : list json) :
  forall parsed i x,
    z_array schema elements = Some parsed ->
    nth_error parsed i = Some x ->
    exists v, nth_error elements i = Some v /\ schema v = Some x.
Proof.
  induction elements as [|v elements IH]; intros parsed i x H Hi; simpl in H.
  - inversion H; subst. now destruct i.
  - destruct (schema v) as [y|] eqn:Ev; [|discriminate].
    destruct (z_array schema elements) as [xs|]; [|discriminate].
    inversion H; subst. destruct i as [|i]; simpl in *.
    + inversion Hi; subst. now exists v.
    + now apply (IH xs).
Qed.

Lemma schema_of_results (fields : list (string * json)) (elements : list json)
  (entries : list TmdbMovie) :
  get_property "results" fields = Some (JArray elements) ->
  z_array tmdbMovieSchema elements = Some entries ->
  tmdbSearchResponseSchema (JObject fields) = Some {| results := entries |}.
Proof. intros Hp He. unfold tmdbSearchResponseSchema. now rewrite Hp, He. Qed.

Lemma status_message_not_empty (body : json) (message : string) :
  status_message body = Some message -> message <> EmptyString.
Proof.
  unfold status_message. intros H.
  destruct body as [| | | | |fields]; try discriminate.
  destruct (get_property "status_message" fields) as [[| | |s| |]|]; try discriminate.
  destruct s; [discriminate|]. inversion H. discriminate.
Qed.

(** ** Numbers: lemmas *)

Lemma tenths (n : Z) : (n # 10 == inject_Z n * (1 # 10))%Q.
Proof. unfold Qeq, inject_Z, Qmult. simpl. lia. Qed.

(** From [10^21] on, a binary64 is an integer. *)
Lemma binary64_large_is_integer (x : Q) :
  binary64 x -> (10 ^ 21 <= Qabs x)%Q -> exists k : Z, (x == inject_Z k)%Q.
Proof.
  intros (m & e & Hm & _ & Hx) Hlarge.
  destruct (Z.leb_spec e 0) as [He|He].
  - exfalso. apply (Qle_not_lt _ _ Hlarge). rewrite Hx, Qabs_Qmult.
    assert (H1 : (0 < 2 ^ e)%Q) by (apply Qpower_0_lt; reflexivity).
    assert (H2 : (2 ^ e <= 1)%Q).
    { change 1%Q with (2 ^ 0)%Q. apply Qpower_le_compat_l; [exact He | discriminate]. }
    rewrite (Qabs_pos (2 ^ e)) by lra.
    assert (H3 : (Qabs (inject_Z m) < inject_Z (2 ^ 53))%Q).
    { change (Qabs (inject_Z m)) with (inject_Z (Z.abs m)).
      rewrite <- Zlt_Qlt. exact Hm. }
    assert (H4 : (0 <= Qabs (inject_Z m))%Q) by apply Qabs_nonneg.
    assert (H5 : (inject_Z (2 ^ 53) < 10 ^ 21)%Q) by reflexivity.
    set (a := Qabs (inject_Z m)) in *. set (p := (2 ^ e)%Q) in *.
    set (b := inject_Z (2 ^ 53)) in *. set (c := (10 ^ 21)%Q) in *.
    nra.
  - exists (m * 2 ^ e)%Z. rewrite Hx, inject_Z_mult.
    rewrite (Zpower_Qpower 2 e) by lia. reflexivity.
Qed.

Local Open Scope Q_scope.

Lemma round_half_even_cases (t : Q) :
  round_half_even t = Qfloor t /\ t - inject_Z (Qfloor t) <= 1 # 2
  \/ round_half_even t = (Qfloor t + 1)%Z /\ 1 # 2 <= t - inject_Z (Qfloor t).
Proof.
  unfold round_half_even.
  destruct (Qcompare (t - inject_Z (Qfloor t)) (1 # 2)) eqn:C.
  - apply Qeq_alt in C. destruct (Z.even (Qfloor t)); [left | right]; split; try reflexivity; lra.
  - apply Qlt_alt in C. left. split; [reflexivity | lra].
  - apply Qgt_alt in C. right. split; [reflexivity | lra].
Qed.

Lemma round_half_even_nearest (t : Q) (k : Z) :
  Qabs (inject_Z (round_half_even t) - t) <= Qabs (inject_Z k - t).
Proof.
  pose proof (Qfloor_le t) as Hlow. pose proof (Qlt_floor t) as Hhigh.
  rewrite inject_Z_plus in Hhigh. change (inject_Z 1) with 1 in Hhigh.
  assert (Hk : inject_Z k <= inject_Z (Qfloor t) \/ inject_Z (Qfloor t) + 1 <= inject_Z k).
  { destruct (Z_le_gt_dec k (Qfloor t)) as [H|H].
    - left. now rewrite <- Zle_Qle.
    - right. assert (H' : (Qfloor t + 1 <= k)%Z) by lia.
      rewrite Zle_Qle, inject_Z_plus in H'. exact H'. }
  destruct (round_half_even_cases t) as [[-> Hr] | [-> Hr]].
  - set (f := inject_Z (Qfloor t)) in *. set (K := inject_Z k) in *.
    apply Qabs_case; intros H1; apply Qabs_case; intros H2; destruct Hk; lra.
  - rewrite inject_Z_plus. change (inject_Z 1) with 1.
    set (f := inject_Z (Qfloor t)) in *. set (K := inject_Z k) in *.
    apply Qabs_case; intros H1; apply Qabs_case; intros H2; destruct Hk; lra.
Qed.

Lemma round_half_even_error (t : Q) :
  Qabs (inject_Z (round_half_even t) - t) <= 1 # 2.
Proof.
  pose proof (Qfloor_le t) as Hlow. pose proof (Qlt_floor t) as Hhigh.
  rewrite inject_Z_plus in Hhigh. change (inject_Z 1) with 1 in Hhigh.
  destruct (round_half_even_cases t) as [[-> Hr] | [-> Hr]].
  - set (f := inject_Z (Qfloor t)) in *. apply Qabs_case; intros; lra.
  - rewrite inject_Z_plus. change (inject_Z 1) with 1.
    set (f := inject_Z (Qfloor t)) in *. apply Qabs_case; intros; lra.
Qed.

Lemma two_power_pos (e : Z) : 0 < 2 ^ e.
Proof. apply Qpower_0_lt. reflexivity. Qed.

Lemma two_power_plus (a b : Z) : 2 ^ (a + b) == 2 ^ a * 2 ^ b.
Proof. apply Qpower_plus. discriminate. Qed.

Lemma Qlog2_spec (a : Q) :
  0 < a -> 2 ^ Qlog2 a <= a /\ a < 2 ^ (Qlog2 a + 1).
Proof.
  intros Ha. unfold Qlog2.
  destruct a as [p d]. cbn [Qnum Qden].
  assert (Hp : (0 < p)%Z) by (unfold Qlt in Ha; cbn in Ha; lia).
  set (lp := Z.log2 p). set (ld := Z.log2 (Z.pos d)).
  destruct (Z.log2_spec p Hp) as [Hp1 Hp2]. fold lp in Hp1, Hp2.
  destruct (Z.log2_spec (Z.pos d) (Pos2Z.is_pos d)) as [Hd1 Hd2]. fold ld in Hd1, Hd2.
  assert (Hlp : (0 <= lp)%Z) by apply Z.log2_nonneg.
  assert (Hld : (0 <= ld)%Z) by apply Z.log2_nonneg.
  rewrite Zle_Qle, Zpower_Qpower in Hp1, Hd1 by assumption.
  rewrite Zlt_Qlt, Zpower_Qpower in Hp2, Hd2 by lia.
  change (inject_Z 2) with 2 in *.
  assert (Hq : p # d == inject_Z p / inject_Z (Z.pos d)) by apply Qmake_Qdiv.
  assert (HD : 0 < inject_Z (Z.pos d)) by (rewrite <- (Zlt_Qlt 0); apply Pos2Z.is_pos).
  assert (Hmul : (p # d) * inject_Z (Z.pos d) == inject_Z p).
  { rewrite Hq. field. lra. }
  set (a := p # d) in *. set (P := inject_Z p) in *. set (D := inject_Z (Z.pos d)) in *.
  assert (Hup : a < 2 ^ (lp - ld + 1)).
  { assert (E : 2 ^ (lp - ld + 1) * 2 ^ ld == 2 ^ (Z.succ lp)).
    { rewrite <- two_power_plus. now replace (lp - ld + 1 + ld)%Z with (Z.succ lp) by lia. }
    pose proof (two_power_pos (lp - ld + 1)) as K1. pose proof (two_power_pos ld) as K2.
    set (U := 2 ^ (lp - ld + 1)) in *. set (V := 2 ^ ld) in *. set (W := 2 ^ Z.succ lp) in *.
    nra. }
  assert (Hdown : 2 ^ (lp - ld - 1) < a).
  { assert (E : 2 ^ (lp - ld - 1) * 2 ^ (Z.succ ld) == 2 ^ lp).
    { rewrite <- two_power_plus. now replace (lp - ld - 1 + Z.succ ld)%Z with lp by lia. }
    pose proof (two_power_pos (lp - ld - 1)) as K1. pose proof (two_power_pos (Z.succ ld)) as K2.
    set (U := 2 ^ (lp - ld - 1)) in *. set (V := 2 ^ Z.succ ld) in *. set (W := 2 ^ lp) in *.
    nra. }
  destruct (Qle_bool (2 ^ (lp - ld)) a) eqn:T.
  - apply Qle_bool_iff in T. split; assumption.
  - assert (T' : a < 2 ^ (lp - ld)).
    { apply Qnot_le_lt. intros H. apply Qle_bool_iff in H. congruence. }
    replace (lp - ld - 1 + 1)%Z with (lp - ld)%Z by lia. split; [lra | exact T'].
Qed.

Lemma binary64_exponent_min (q : Q) : (-1074 <= binary64_exponent q)%Z.
Proof. unfold binary64_exponent. lia. Qed.

Lemma Qabs_pos_lt (q : Q) : ~ q == 0 -> 0 < Qabs q.
Proof.
  intros Hq. destruct (Qlt_le_dec 0 (Qabs q)) as [H|H]; [exact H|].
  elim Hq. pose proof (Qabs_nonneg q) as H0.
  assert (E : Qabs q == 0) by lra.
  revert E. apply Qabs_case; intros; lra.
Qed.

(** Above the exponent: the magnitude is under [2^53] units. *)
Lemma binary64_exponent_above (q : Q) :
  ~ q == 0 -> Qabs q < 2 ^ 53 * 2 ^ binary64_exponent q.
Proof.
  intros Hq. destruct (Qlog2_spec (Qabs q) (Qabs_pos_lt q Hq)) as [_ Hup].
  unfold binary64_exponent. set (L := Qlog2 (Qabs q)) in *.
  apply Qlt_le_trans with (1 := Hup). rewrite <- two_power_plus.
  apply Qpower_le_compat_l; [lia | discriminate].
Qed.

(** A normal exponent: the magnitude is at least [2^52] units. *)
Lemma binary64_exponent_below (q : Q) :
  ~ q == 0 -> (-1074 < binary64_exponent q)%Z ->
  2 ^ 52 * 2 ^ binary64_exponent q <= Qabs q.
Proof.
  intros Hq He. destruct (Qlog2_spec (Qabs q) (Qabs_pos_lt q Hq)) as [Hlow _].
  unfold binary64_exponent in *. set (L := Qlog2 (Qabs q)) in *.
  replace (Z.max (L - 52) (-1074)) with (L - 52)%Z in * by lia.
  rewrite <- two_power_plus. now replace (52 + (L - 52))%Z with L by lia.
Qed.

Lemma binary64_round_units (q : Q) :
  q == (q / 2 ^ binary64_exponent q) * 2 ^ binary64_exponent q.
Proof. pose proof (two_power_pos (binary64_exponent q)). field. lra. Qed.

Lemma scaled_distance (M t s q : Q) :
  0 < s -> q == t * s -> Qabs (M * s - q) == Qabs (M - t) * s.
Proof.
  intros Hs Hq. setoid_replace (M * s - q) with ((M - t) * s) by (rewrite Hq; ring).
  rewrite Qabs_Qmult, (Qabs_pos s) by lra. reflexivity.
Qed.

Lemma binary64_round_unfold (q : Q) :
  binary64_round q
  = inject_Z (round_half_even (q / 2 ^ binary64_exponent q)) * 2 ^ binary64_exponent q.
Proof. reflexivity. Qed.


(** A binary64 with an exponent not under [e] is a whole number of units
    [2^e]. *)
Lemma binary64_units (m e e' : Z) :
  (e <= e')%Z -> inject_Z m * 2 ^ e' == inject_Z (m * 2 ^ (e' - e)) * 2 ^ e.
Proof.
  intros He. rewrite inject_Z_mult, Zpower_Qpower by lia.
  change (inject_Z 2) with 2. rewrite <- Qmult_assoc, <- two_power_plus.
  now replace (e' - e + e)%Z with e' by lia.
Qed.

Lemma binary64_round_zero (q : Q) : q == 0 -> binary64_round q == 0.
Proof.
  intros Hzero. rewrite binary64_round_unfold.
  assert (Et : q / 2 ^ binary64_exponent q == 0).
  { generalize (2 ^ binary64_exponent q). intros s.
    rewrite Hzero. unfold Qdiv. ring. }
  unfold round_half_even. rewrite (Qfloor_comp _ _ Et).
  change (Qfloor 0) with 0%Z.
  assert (C : Qcompare (q / 2 ^ binary64_exponent q - inject_Z 0) (1 # 2) = Lt).
  { apply Qlt_alt. rewrite Et. reflexivity. }
  rewrite C. ring.
Qed.

Lemma binary64_round_nearest (q y : Q) :
  binary64 y -> Qabs (binary64_round q - q) <= Qabs (y - q).
Proof.
  intros (m & e' & Hm & [He' _] & Hy).
  destruct (Qeq_dec q 0) as [Hzero | Hq].
  { rewrite (binary64_round_zero q Hzero), Hzero.
    setoid_replace (0 - 0) with 0 by ring. apply Qabs_nonneg. }
  pose proof (two_power_pos (binary64_exponent q)) as Hs.
  pose proof (binary64_round_units q) as Hunits.
  rewrite binary64_round_unfold.
  rewrite (scaled_distance _ _ _ q Hs Hunits).
  set (e := binary64_exponent q) in *. set (t := q / 2 ^ e) in *.
  destruct (Z_le_gt_dec e e') as [Hle | Hgt].
  - rewrite Hy, (binary64_units m e e' Hle).
    rewrite (scaled_distance _ _ _ q Hs Hunits).
    pose proof (round_half_even_nearest t (m * 2 ^ (e' - e))) as Hnear.
    set (s := 2 ^ e) in *.
    set (A := Qabs (inject_Z (round_half_even t) - t)) in *.
    set (B := Qabs (inject_Z (m * 2 ^ (e' - e)) - t)) in *.
    nra.
  - assert (Hnormal : (-1074 < e)%Z) by lia.
    pose proof (binary64_exponent_below q Hq Hnormal) as Hbelow. fold e in Hbelow.
    assert (Hy_small : Qabs y < 2 ^ 52 * 2 ^ e).
    { rewrite Hy, Qabs_Qmult, (Qabs_pos (2 ^ e')) by (pose proof (two_power_pos e'); lra).
      assert (Hm' : Qabs (inject_Z m) < inject_Z (2 ^ 53)).
      { change (Qabs (inject_Z m)) with (inject_Z (Z.abs m)). now rewrite <- Zlt_Qlt. }
      assert (Hmn : 0 <= Qabs (inject_Z m)) by apply Qabs_nonneg.
      assert (He2 : 2 ^ e' * 2 <= 2 ^ e).
      { change 2 with (2 ^ 1) at 2. rewrite <- two_power_plus.
        apply Qpower_le_compat_l; [lia | discriminate]. }
      pose proof (two_power_pos e') as Hs'.
      change (inject_Z (2 ^ 53)) with (2 ^ 52 * 2) in Hm'.
      set (a := Qabs (inject_Z m)) in *. set (s' := 2 ^ e') in *. set (s := 2 ^ e) in *.
      set (c := 2 ^ 52) in *. assert (Hc : 0 < c) by reflexivity.
      nra. }
    assert (Hq_units : Qabs q == Qabs t * 2 ^ e).
    { rewrite Hunits at 1. rewrite Qabs_Qmult, (Qabs_pos (2 ^ e)) by lra. reflexivity. }
    assert (Ht : 2 ^ 52 <= Qabs t).
    { rewrite Hq_units in Hbelow.
      set (c := 2 ^ 52) in *. set (a := Qabs t) in *. set (s := 2 ^ e) in *. nra. }
    assert (Hnear : Qabs (inject_Z (round_half_even t) - t) <= Qabs t - 2 ^ 52).
    { revert Ht. apply (Qabs_case t); intros Hsign Ht.
      - pose proof (round_half_even_nearest t (2 ^ 52)) as H.
        change (inject_Z (2 ^ 52)) with (2 ^ 52) in H.
        rewrite (Qabs_neg (2 ^ 52 - t)) in H by lra. lra.
      - pose proof (round_half_even_nearest t (- 2 ^ 52)) as H.
        change (inject_Z (- 2 ^ 52)) with (- 2 ^ 52) in H.
        rewrite (Qabs_pos (- 2 ^ 52 - t)) in H by lra. lra. }
    pose proof (Qabs_triangle_reverse q y) as Htri.
    rewrite (Qabs_Qminus y q). rewrite Hq_units in Htri.
    set (A := Qabs (inject_Z (round_half_even t) - t)) in *.
    set (c := 2 ^ 52) in *. set (a := Qabs t) in *. set (s := 2 ^ e) in *.
    set (Y := Qabs y) in *. set (D := Qabs (q - y)) in *.
    nra.
Qed.

Lemma Z_gap (k n : Z) : (k <= n)%Z \/ inject_Z n + 1 <= inject_Z k.
Proof.
  destruct (Z_le_gt_dec k n) as [H|H]; [now left | right].
  assert (H' : (n + 1 <= k)%Z) by lia.
  rewrite Zle_Qle, inject_Z_plus in H'. exact H'.
Qed.

Lemma binary64_round_is_binary64 (q : Q) :
  Qabs q < 2 ^ 1023 -> binary64 (binary64_round q).
Proof.
  intros Hrange. destruct (Qeq_dec q 0) as [Hzero | Hq].
  { exists 0%Z, 0%Z. repeat split; try lia. now rewrite (binary64_round_zero q Hzero). }
  pose proof (binary64_exponent_above q Hq) as Habove.
  pose proof (binary64_round_units q) as Hunits.
  pose proof (two_power_pos (binary64_exponent q)) as Hs.
  assert (He : (-1074 <= binary64_exponent q <= 970)%Z).
  { split; [apply binary64_exponent_min|].
    destruct (Qlog2_spec (Qabs q) (Qabs_pos_lt q Hq)) as [Hlow _].
    assert (HL : (Qlog2 (Qabs q) < 1023)%Z).
    { apply Qpower_lt_compat_l_inv with (q := 2); [lra | reflexivity]. }
    unfold binary64_exponent. lia. }
  rewrite binary64_round_unfold.
  set (e := binary64_exponent q) in *. set (t := q / 2 ^ e) in *.
  assert (Hq_units : Qabs q == Qabs t * 2 ^ e).
  { rewrite Hunits at 1. rewrite Qabs_Qmult, (Qabs_pos (2 ^ e)) by lra. reflexivity. }
  assert (Ht : Qabs t < 2 ^ 53).
  { rewrite Hq_units in Habove.
    set (c := 2 ^ 53) in *. set (a := Qabs t) in *. set (s := 2 ^ e) in *. nra. }
  pose proof (round_half_even_error t) as Herr.
  set (M := round_half_even t) in *.
  assert (HM : (Z.abs M <= 2 ^ 53)%Z).
  { apply Z.lt_succ_r. rewrite Zlt_Qlt.
    change (inject_Z (Z.abs M)) with (Qabs (inject_Z M)).
    change (inject_Z (Z.succ (2 ^ 53))) with (2 ^ 53 + 1).
    pose proof (Qabs_triangle (inject_Z M - t) t) as Htri.
    setoid_replace (inject_Z M - t + t) with (inject_Z M) in Htri by ring.
    set (c := 2 ^ 53) in *. lra. }
  destruct (Z.eq_dec (Z.abs M) (2 ^ 53)) as [Hfull | Hless].
  - exists (M / 2)%Z, (e + 1)%Z.
    assert (HM2 : M = (2 ^ 53)%Z \/ M = (- 2 ^ 53)%Z) by lia.
    split; [|split; [lia|]].
    + destruct HM2 as [-> | ->]; reflexivity.
    + rewrite two_power_plus. change (2 ^ 1) with 2.
      destruct HM2 as [-> | ->].
      * change (inject_Z (2 ^ 53 / 2)) with (2 ^ 52). change (inject_Z (2 ^ 53)) with (2 ^ 52 * 2). ring.
      * change (inject_Z (- 2 ^ 53 / 2)) with (- 2 ^ 52). change (inject_Z (- 2 ^ 53)) with (- 2 ^ 52 * 2). ring.
  - exists M, e. split; [lia|]. split; [lia | reflexivity].
Qed.

Lemma toFixed1_value_nearest (x : Q) :
  exists n : Z, toFixed1_value x = (n # 10) /\ nearest_tenth x n.
Proof.
  unfold toFixed1_value.
  pose proof (Qfloor_le (10 * Qabs x + (1 # 2))) as Hlow.
  pose proof (Qlt_floor (10 * Qabs x + (1 # 2))) as Hhigh.
  set (n := Qfloor (10 * Qabs x + (1 # 2))) in *.
  rewrite inject_Z_plus in Hhigh. change (inject_Z 1) with 1 in Hhigh.
  pose proof (Qabs_nonneg x) as Hnonneg.
  assert (Hn : (0 <= n)%Z).
  { destruct (Z_gap 0 n) as [H|H]; [exact H|]. change (inject_Z 0) with 0 in H. lra. }
  destruct (Qle_bool 0 x) eqn:Hsign.
  - apply Qle_bool_iff in Hsign. pose proof (Qabs_pos x Hsign) as Habs.
    exists n. split; [reflexivity|]. intros k.
    rewrite (tenths n), (tenths k).
    set (N := inject_Z n) in *. set (K := inject_Z k) in *. set (a := Qabs x) in *.
    split.
    + destruct (Z_gap k n) as [H|H]; fold N K in H.
      * destruct (Z_gap n k) as [H'|H']; fold N K in H'.
        -- assert (k = n) by lia. subst k. subst K. fold N. lra.
        -- apply Qabs_case; intros H1; apply Qabs_case; intros H2; lra.
      * apply Qabs_case; intros H1; apply Qabs_case; intros H2; lra.
    + intros Hnear.
      assert (Hn_err : Qabs (N * (1 # 10) - x) <= 1 # 20).
      { apply Qabs_Qle_condition. split; lra. }
      assert (Hk_err : Qabs (K * (1 # 10) - x) <= 1 # 20) by lra.
      apply Qabs_Qle_condition in Hk_err. destruct Hk_err as [Hk1 Hk2].
      assert (Hk_le : (k <= n)%Z).
      { destruct (Z_gap k n) as [H|H]; [exact H|]. fold N K in H. lra. }
      assert (Hk_ge : (0 <= k)%Z).
      { destruct (Z_gap 0 k) as [H|H]; [exact H|]. fold K in H.
        change (inject_Z 0) with 0 in H. lra. }
      lia.
  - assert (Hneg : x < 0).
    { apply Qnot_le_lt. intros Hle. apply Qle_bool_iff in Hle. congruence. }
    pose proof (Qabs_neg x (Qlt_le_weak _ _ Hneg)) as Habs.
    exists (- n)%Z. split; [reflexivity|]. intros k.
    rewrite (tenths (- n)), (tenths k), inject_Z_opp.
    set (N := inject_Z n) in *. set (K := inject_Z k) in *. set (a := Qabs x) in *.
    split.
    + destruct (Z_gap (- k) n) as [H|H]; rewrite ?inject_Z_opp in H; fold N K in H.
      * destruct (Z_gap n (- k)) as [H'|H']; rewrite ?inject_Z_opp in H'; fold N K in H'.
        -- assert (E : k = (- n)%Z) by lia.
           assert (EK : K == - N) by (unfold K, N; rewrite E, inject_Z_opp; reflexivity).
           rewrite EK. lra.
        -- apply Qabs_case; intros H1; apply Qabs_case; intros H2; lra.
      * apply Qabs_case; intros H1; apply Qabs_case; intros H2; lra.
    + intros Hnear.
      assert (Hn_err : Qabs (- N * (1 # 10) - x) <= 1 # 20).
      { apply Qabs_Qle_condition. split; lra. }
      assert (Hk_err : Qabs (K * (1 # 10) - x) <= 1 # 20) by lra.
      apply Qabs_Qle_condition in Hk_err. destruct Hk_err as [Hk1 Hk2].
      assert (Hk_ge : (- k <= n)%Z).
      { destruct (Z_gap (- k) n) as [H|H]; [exact H|].
        rewrite inject_Z_opp in H. fold N K in H. lra. }
      assert (Hk_le : (0 <= - k)%Z).
      { destruct (Z_gap 0 (- k)) as [H|H]; [exact H|].
        rewrite inject_Z_opp in H. fold K in H. change (inject_Z 0) with 0 in H. lra. }
      lia.
Qed.

Lemma toFixed1_value_error (x : Q) : Qabs (toFixed1_value x - x) <= 1 # 20.
Proof.
  unfold toFixed1_value.
  pose proof (Qfloor_le (10 * Qabs x + (1 # 2))) as Hlow.
  pose proof (Qlt_floor (10 * Qabs x + (1 # 2))) as Hhigh.
  set (n := Qfloor (10 * Qabs x + (1 # 2))) in *.
  rewrite inject_Z_plus in Hhigh. change (inject_Z 1) with 1 in Hhigh.
  destruct (Qle_bool 0 x) eqn:Hsign.
  - apply Qle_bool_iff in Hsign. pose proof (Qabs_pos x Hsign) as Habs.
    apply Qabs_Qle_condition. rewrite (tenths n).
    set (q := inject_Z n) in *. set (a := Qabs x) in *. split; lra.
  - assert (Hneg : x <= 0).
    { apply Qlt_le_weak, Qnot_le_lt. intros Hle.
      apply Qle_bool_iff in Hle. congruence. }
    pose proof (Qabs_neg x Hneg) as Habs.
    apply Qabs_Qle_condition. rewrite (tenths n).
    set (q := inject_Z n) in *. set (a := Qabs x) in *. split; lra.
Qed.

Lemma toFixed1_value_in_range (x : Q) :
  Qle_bool (10 ^ 21) (Qabs x) = false -> Qabs (toFixed1_value x) < 2 ^ 1023.
Proof.
  intros Hrange.
  assert (Hx : Qabs x < 10 ^ 21).
  { apply Qnot_le_lt. intros Hle. apply Qle_bool_iff in Hle. congruence. }
  pose proof (toFixed1_value_error x) as Herr.
  pose proof (Qabs_triangle (toFixed1_value x - x) x) as Htri.
  setoid_replace (toFixed1_value x - x + x) with (toFixed1_value x) in Htri by ring.
  assert (Hbig : 10 ^ 21 + 1 < 2 ^ 1023) by reflexivity.
  set (A := Qabs (toFixed1_value x)) in *. set (B := Qabs x) in *.
  set (E := Qabs (toFixed1_value x - x)) in *.
  set (c := 10 ^ 21) in *. set (c' := 2 ^ 1023) in *. lra.
Qed.

(** What [Number(x.toFixed(1))] is, for a binary64 [x]: the binary64
    nearest to the tenth nearest to [x]. *)
Lemma Number_toFixed1_nearest (x : Q) :
  binary64 x ->
  exists n : Z, nearest_tenth x n /\ nearest_binary64 (n # 10) (Number_toFixed1 x).
Proof.
  intros Hx. unfold Number_toFixed1.
  destruct (Qle_bool (10 ^ 21) (Qabs x)) eqn:Hrange.
  - apply Qle_bool_iff in Hrange.
    destruct (binary64_large_is_integer x Hx Hrange) as (K & HK).
    assert (Hsame : (10 * K # 10) - x == 0).
    { rewrite HK. unfold Qeq, Qminus, Qplus, Qopp, inject_Z. cbn [Qnum Qden]. lia. }
    exists (10 * K)%Z. split.
    + intros k. rewrite Hsame. change (Qabs 0) with 0. split; [apply Qabs_nonneg|].
      intros Hk. pose proof (Qabs_nonneg ((k # 10) - x)) as H0.
      assert (E : Qabs ((k # 10) - x) == 0) by lra.
      assert (E' : (k # 10) - x == 0).
      { revert E. apply Qabs_case; intros; lra. }
      rewrite HK in E'. unfold Qeq, Qminus, Qplus, Qopp, inject_Z in E'.
      cbn [Qnum Qden] in E'. lia.
    + split; [exact Hx|]. intros y _.
      setoid_replace (x - (10 * K # 10)) with (- ((10 * K # 10) - x)) by ring.
      rewrite Hsame. apply Qabs_nonneg.
  - destruct (toFixed1_value_nearest x) as (n & Hval & Hnear).
    pose proof (toFixed1_value_in_range x Hrange) as Hbound.
    rewrite Hval in *. exists n. split; [exact Hnear|]. split.
    + now apply binary64_round_is_binary64.
    + intros y Hy. now apply binary64_round_nearest.
Qed.

Local Close Scope Q_scope.

(** ** The paths of the handlers *)

Ltac step_handler :=
  unfold run, Index.searchMoviesHandler, Edge.searchMoviesTool,
    Index.buildSearchMoviesWidgetResponse;
  cbn [bind ret catch raise Monad_Async Exception_Async];
  unfold getenv, fetch, Response_json, tmdbSearchResponseSchema_parse, ZodError.

Section MissingKey.
Variables (w : World) (input : SearchMoviesInput).
Hypothesis no_key : truthy (env w "TMDB_API_KEY") = None.

Lemma index_missing_key :
  run (Index.searchMoviesHandler input) w
  = (inr {| Index.props :=
              {| Props.query := query input;
                 Props.movies := [];
                 Props.error := Some "TMDB API key is missing. Set TMDB_API_KEY and try again." |};
            Index.output := "Movie search failed because the TMDB API key is not configured." |},
     []).
Proof. step_handler. now rewrite no_key. Qed.

Lemma edge_missing_key :
  run (Edge.searchMoviesTool input) w
  = (inr {| Edge.content :=
              [ {| Edge.type := "text";
                   Edge.text := "Movie search failed because TMDB_API_KEY is not configured." |} ];
            Edge.structuredContent :=
              {| Props.query := query input;
                 Props.movies := [];
                 Props.error := Some "TMDB API key is missing. Set TMDB_API_KEY and try again." |} |},
     []).
Proof. step_handler. now rewrite no_key. Qed.
End MissingKey.

Section Configured.
Variables (w : World) (input : SearchMoviesInput) (key : string).
Hypothesis has_key : truthy (env w "TMDB_API_KEY") = Some key.

Let url : URL := search_url key (query input).

(** A response that is not [ok]. *)
Lemma index_http_failure (response : Response) :
  network w url = inr response ->
  ok response = false ->
  run (Index.searchMoviesHandler input) w
  = (inr {| Index.props :=
              {| Props.query := query input;
                 Props.movies := [];
                 Props.error :=
                   Some (status_line (status response)
                         ++ trimEnd (error_details response)) |};
            Index.output := "Movie search failed due to an external API error." |},
     [url]).
Proof.
  intros Hnet Hok. step_handler. rewrite has_key.
  fold url. rewrite Hnet. cbn [app negb]. rewrite Hok. cbn [negb].
  unfold error_details, status_line.
  destruct (json_body response) as [e|body].
  - rewrite trim_status_line, append_assoc, append_assoc. reflexivity.
  - destruct (status_message body) as [message|];
      rewrite trim_status_line, append_assoc, append_assoc; reflexivity.
Qed.

Lemma edge_http_failure (response : Response) :
  network w url = inr response ->
  ok response = false ->
  run (Edge.searchMoviesTool input) w
  = (inr {| Edge.content :=
              [ {| Edge.type := "text";
                   Edge.text := "Movie search failed due to an external API error." |} ];
            Edge.structuredContent :=
              {| Props.query := query input;
                 Props.movies := [];
                 Props.error := Some (status_line (status response)) |} |},
     [url]).
Proof.
  intros Hnet Hok. step_handler. rewrite has_key.
  fold url. rewrite Hnet. cbn [app negb]. rewrite Hok. reflexivity.
Qed.

(** An exception on the way: [fetch], [response.json()] or [parse]. *)
Lemma index_exception (e : thrown) :
  search_throws w url e ->
  run (Index.searchMoviesHandler input) w
  = (inr {| Index.props :=
              {| Props.query := query input;
                 Props.movies := [];
                 Props.error :=
                   Some ("Unable to fetch movie results right now: " ++ error_message e) |};
            Index.output := "Movie search failed due to a network or parsing error." |},
     [url]).
Proof.
  intros H. step_handler. rewrite has_key. fold url.
  destruct H as [e Hnet | response e Hnet Hok Hbody | response body Hnet Hok Hbody Hfit];
    rewrite Hnet; cbn [app]; try rewrite Hok; cbn [negb];
    try rewrite Hbody; try rewrite Hfit; reflexivity.
Qed.

Lemma edge_exception (e : thrown) :
  search_throws w url e ->
  run (Edge.searchMoviesTool input) w
  = (inr {| Edge.content :=
              [ {| Edge.type := "text";
                   Edge.text := "Movie search failed due to a network or parsing error." |} ];
            Edge.structuredContent :=
              {| Props.query := query input;
                 Props.movies := [];
                 Props.error :=
                   Some ("Unable to fetch movie results right now: " ++ error_message e) |} |},
     [url]).
Proof.
  intros H. step_handler. rewrite has_key. fold url.
  destruct H as [e Hnet | response e Hnet Hok Hbody | response body Hnet Hok Hbody Hfit];
    rewrite Hnet; cbn [app]; try rewrite Hok; cbn [negb];
    try rewrite Hbody; try rewrite Hfit; reflexivity.
Qed.

(** A 2xx response whose body fits the schema. *)
Section WellFormed.
Variables (response : Response) (body : json) (payload : TmdbSearchResponse).
Hypothesis answered : network w url = inr response.
Hypothesis is_ok : ok response = true.
Hypothesis has_body : json_body response = inr body.
Hypothesis fits : tmdbSearchResponseSchema body = Some payload.

Lemma index_no_results :
  results payload = [] ->
  run (Index.searchMoviesHandler input) w
  = (inr {| Index.props :=
              {| Props.query := query input;
                 Props.movies := [];
                 Props.error := Some "No movies found for this query." |};
            Index.output :=
              "No movies found for " ++ dquote ++ query input ++ dquote ++ "." |},
     [url]).
Proof.
  intros Hnone. step_handler. rewrite has_key. fold url.
  rewrite answered. cbn [app]. rewrite is_ok. cbn [negb].
  rewrite has_body, fits. cbn [bind ret Monad_Async]. rewrite Hnone. reflexivity.
Qed.

Lemma edge_no_results :
  results payload = [] ->
  run (Edge.searchMoviesTool input) w
  = (inr {| Edge.content :=
              [ {| Edge.type := "text";
                   Edge.text :=
                     "No movies found for " ++ dquote ++ query input ++ dquote ++ "." |} ];
            Edge.structuredContent :=
              {| Props.query := query input;
                 Props.movies := [];
                 Props.error := Some "No movies found for this query." |} |},
     [url]).
Proof.
  intros Hnone. step_handler. rewrite has_key. fold url.
  rewrite answered. cbn [app]. rewrite is_ok. cbn [negb].
  rewrite has_body, fits. cbn [bind ret Monad_Async]. rewrite Hnone. reflexivity.
Qed.

Lemma index_found :
  results payload <> [] ->
  run (Index.searchMoviesHandler input) w
  = (inr {| Index.props :=
              {| Props.query := query input;
                 Props.movies := map mapTmdbMovieToCard (firstn 3 (results payload));
                 Props.error := None |};
            Index.output :=
              "Found "
              ++ String_of_nat (length (map mapTmdbMovieToCard (firstn 3 (results payload))))
              ++ " movie result(s) for " ++ dquote ++ query input ++ dquote ++ "." |},
     [url]).
Proof.
  intros Hsome. step_handler. rewrite has_key. fold url.
  rewrite answered. cbn [app]. rewrite is_ok. cbn [negb].
  rewrite has_body, fits. cbn [bind ret Monad_Async]. unfold slice. cbn [skipn Nat.sub].
  destruct (results payload) as [|m ms]; [now elim Hsome | reflexivity].
Qed.

Lemma edge_found :
  results payload <> [] ->
  run (Edge.searchMoviesTool input) w
  = (inr {| Edge.content :=
              [ {| Edge.type := "text";
                   Edge.text :=
                     "Found "
                     ++ String_of_nat (length (map mapTmdbMovieToCard (firstn 3 (results payload))))
                     ++ " movie result(s) for " ++ dquote ++ query input ++ dquote ++ "." |} ];
            Edge.structuredContent :=
              {| Props.query := query input;
                 Props.movies := map mapTmdbMovieToCard (firstn 3 (results payload));
                 Props.error := None |} |},
     [url]).
Proof.
  intros Hsome. step_handler. rewrite has_key. fold url.
  rewrite answered. cbn [app]. rewrite is_ok. cbn [negb].
  rewrite has_body, fits. cbn [bind ret Monad_Async]. unfold slice. cbn [skipn Nat.sub].
  destruct (results payload) as [|m ms]; [now elim Hsome | reflexivity].
Qed.
End WellFormed.
End Configured.

Lemma truthy_unset (v : option string) :
  v = None \/ v = Some EmptyString -> truthy v = None.
Proof. now intros [-> | ->]. Qed.

(** Every run of a handler takes one of the five paths. *)
Lemma handler_paths (w : World) (input : SearchMoviesInput) :
  truthy (env w "TMDB_API_KEY") = None
  \/ exists key,
       truthy (env w "TMDB_API_KEY") = Some key
       /\ ((exists e, search_throws w (search_url key (query input)) e)
           \/ (exists response,
                 network w (search_url key (query input)) = inr response
                 /\ (ok response = false
                     \/ ok response = true
                        /\ exists body payload,
                             json_body response = inr body
                             /\ tmdbSearchResponseSchema body = Some payload))).
Proof.
  destruct (truthy (env w "TMDB_API_KEY")) as [key|]; [right | now left].
  exists key. split; [reflexivity|].
  destruct (network w (search_url key (query input))) as [e|response] eqn:Hnet.
  - left. exists e. now apply fetch_rejects.
  - destruct (ok response) eqn:Hok.
    + destruct (json_body response) as [e|body] eqn:Hbody.
      * left. exists e. exact (body_not_json w _ response e Hnet Hok Hbody).
      * destruct (tmdbSearchResponseSchema body) as [payload|] eqn:Hfit.
        -- right. exists response. split; [reflexivity|]. right.
           split; [exact Hok|]. now exists body, payload.
        -- left. eexists. exact (body_misfit w _ response body Hnet Hok Hbody Hfit).
    + right. exists response. split; [reflexivity|]. left. exact Hok.
Qed.

(** ** The model at work *)

Example split_date : split "-" "1999-03-31" = ["1999"; "03"; "31"].
Proof. reflexivity. Qed.

Example split_nothing : split "-" EmptyString = [EmptyString].
Proof. reflexivity. Qed.

Example trim_both_ends :
  trim (String (ascii_of_nat 9) " a b"
        ++ String (ascii_of_nat 194) (String (ascii_of_nat 160) " "))
  = "a b".
Proof. reflexivity. Qed.

Example toFixed1_tie_up :
  (Number_toFixed1 (1 # 4) == 5404319552844595 # 18014398509481984)%Q.
Proof. vm_compute. reflexivity. Qed.

Example toFixed1_tie_down :
  (Number_toFixed1 (- (1 # 4)) == - (5404319552844595 # 18014398509481984))%Q.
Proof. vm_compute. reflexivity. Qed.

Example toFixed1_of_8_25 :
  (Number_toFixed1 (33 # 4) == (83 # 10) + (1 # 1407374883553280))%Q.
Proof. vm_compute. reflexivity. Qed.

Example toFixed1_where_tenths_are_too_fine :
  (Number_toFixed1 (inject_Z (2 ^ 50) + (1 # 4)) == inject_Z (2 ^ 50) + (1 # 4))%Q.
Proof. vm_compute. reflexivity. Qed.

Example search_url_example :
  search_url "secret" "Matrix"
  = {| href := "https://api.themoviedb.org/3/search/movie";
       searchParams := [ ("api_key", "secret"); ("query", "Matrix");
                         ("page", "1"); ("include_adult", "false") ] |}.
Proof. reflexivity. Qed.

Example four_results_parse :
  option_map (map Raw.title)
    (option_map results (tmdbSearchResponseSchema (search_body four_results)))
  = Some [ "The Matrix"; "The Matrix Reloaded"; "The Matrix Revolutions";
           "The Matrix Resurrections" ].
Proof. reflexivity. Qed.

Example title_is_required :
  tmdbSearchResponseSchema (search_body [ JObject [ ("id", JNumber 1) ] ]) = None.
Proof. reflexivity. Qed.

Example offline_run :
  run (Index.searchMoviesHandler matrix) (world_offline NotAnError)
  = (inr {| Index.props :=
              {| Props.query := "Matrix";
                 Props.movies := [];
                 Props.error :=
                   Some "Unable to fetch movie results right now: Unknown network error" |};
            Index.output := "Movie search failed due to a network or parsing error." |},
     [search_url "secret" "Matrix"]).
Proof. reflexivity. Qed.

Example blank_status_message_is_trimmed_away :
  fst (run (Index.searchMoviesHandler matrix)
         (world_answering
            {| status := 503;
               json_body := inr (JObject [ ("status_message", JString "  ") ]) |}))
  = inr {| Index.props :=
             {| Props.query := "Matrix";
                Props.movies := [];
                Props.error := Some "TMDB request failed with status 503." |};
           Index.output := "Movie search failed due to an external API error." |}.
Proof. reflexivity. Qed.

Example found_run :
  option_map (map Card.releaseYear)
    (match fst (run (Edge.searchMoviesTool matrix)
                  (world_answering {| status := 200;
                                      json_body := inr (search_body four_results) |})) with
     | inr r => Some (Props.movies (Edge.structuredContent r))
     | inl _ => None
     end)
  = Some [ "1999"; "N/A"; "1999" ].
Proof. reflexivity. Qed.

(** * The search_movies tool: properties *)

(** C1.  When the key is configured and the provider answers a 2xx
    response whose body is an object with a [results] array of [n]
    well-formed entries, both handlers return the same list of movies: it
    has [min 3 n] entries, it is the image by [mapTmdbMovieToCard] of the
    first three parsed entries, and its [i]-th movie is the card of the
    [i]-th upstream entry. *)
Theorem movies_are_first_three_in_order
  (w : World) (input : SearchMoviesInput) (key : string) (response : Response)
  (fields : list (string * json)) (elements : list json) (entries : list TmdbMovie) :
  truthy (env w "TMDB_API_KEY") = Some key ->
  network w (search_url key (query input)) = inr response ->
  ok response = true ->
  json_body response = inr (JObject fields) ->
  get_property "results" fields = Some (JArray elements) ->
  z_array tmdbMovieSchema elements = Some entries ->
  exists (r : Index.WidgetResponse) (r' : Edge.ToolResult) (movies : list MovieCard),
    fst (run (Index.searchMoviesHandler input) w) = inr r
    /\ fst (run (Edge.searchMoviesTool input) w) = inr r'
    /\ Props.movies (Index.props r) = movies
    /\ Props.movies (Edge.structuredContent r') = movies
    /\ length movies = Nat.min 3 (length elements)
    /\ movies = map mapTmdbMovieToCard (firstn 3 entries)
    /\ forall i, i < Nat.min 3 (length elements) ->
         exists v raw,
           nth_error elements i = Some v
           /\ tmdbMovieSchema v = Some raw
           /\ nth_error movies i = Some (mapTmdbMovieToCard raw).
Proof.
  intros Hkey Hnet Hok Hbody Hres Hentries.
  pose proof (schema_of_results _ _ _ Hres Hentries) as Hfit.
  assert (Hlen : length (map mapTmdbMovieToCard (firstn 3 entries))
                 = Nat.min 3 (length elements)).
  { rewrite length_map, length_firstn. now rewrite (z_array_length _ _ _ Hentries). }
  assert (Hruns : exists r r',
             fst (run (Index.searchMoviesHandler input) w) = inr r
             /\ fst (run (Edge.searchMoviesTool input) w) = inr r'
             /\ Props.movies (Index.props r) = map mapTmdbMovieToCard (firstn 3 entries)
             /\ Props.movies (Edge.structuredContent r')
                = map mapTmdbMovieToCard (firstn 3 entries)).
  { destruct entries as [|m ms] eqn:E.
    - rewrite (index_no_results w input key Hkey _ _ _ Hnet Hok Hbody Hfit eq_refl).
      rewrite (edge_no_results w input key Hkey _ _ _ Hnet Hok Hbody Hfit eq_refl).
      do 2 eexists. repeat split.
    - assert (Hne : results {| results := m :: ms |} <> []) by discriminate.
      rewrite (index_found w input key Hkey _ _ _ Hnet Hok Hbody Hfit Hne).
      rewrite (edge_found w input key Hkey _ _ _ Hnet Hok Hbody Hfit Hne).
      do 2 eexists. repeat split. }
  destruct Hruns as (r & r' & Hr & Hr' & Hm & Hm').
  exists r, r', (map mapTmdbMovieToCard (firstn 3 entries)).
  repeat split; try assumption.
  intros i Hi.
  assert (Hi' : i < length (firstn 3 entries)).
  { rewrite length_firstn, (z_array_length _ _ _ Hentries). exact Hi. }
  destruct (nth_error (firstn 3 entries) i) as [raw|] eqn:Eraw;
    [|apply nth_error_None in Eraw; lia].
  assert (Hraw : nth_error entries i = Some raw).
  { rewrite <- Eraw, nth_error_firstn.
    destruct (Nat.ltb_spec i 3); [reflexivity | lia]. }
  destruct (z_array_nth _ _ _ _ _ Hentries Hraw) as (v & Hv & Hparse).
  exists v, raw. repeat split; try assumption.
  rewrite nth_error_map, Eraw. reflexivity.
Qed.

Lemma movies_are_first_three_in_order_witness :
  exists (r : Index.WidgetResponse) (r' : Edge.ToolResult) (movies : list MovieCard),
    fst (run (Index.searchMoviesHandler matrix)
           (world_answering {| status := 200; json_body := inr (search_body four_results) |}))
    = inr r
    /\ fst (run (Edge.searchMoviesTool matrix)
              (world_answering {| status := 200; json_body := inr (search_body four_results) |}))
       = inr r'
    /\ Props.movies (Index.props r) = movies
    /\ Props.movies (Edge.structuredContent r') = movies
    /\ length movies = Nat.min 3 (length four_results)
    /\ movies = map mapTmdbMovieToCard
                  (firstn 3 (match z_array tmdbMovieSchema four_results with
                             | Some entries => entries
                             | None => []
                             end))
    /\ forall i, i < Nat.min 3 (length four_results) ->
         exists v raw,
           nth_error four_results i = Some v
           /\ tmdbMovieSchema v = Some raw
           /\ nth_error movies i = Some (mapTmdbMovieToCard raw).
Proof.
  apply (movies_are_first_three_in_order
           (world_answering {| status := 200; json_body := inr (search_body four_results) |})
           matrix "secret"
           {| status := 200; json_body := inr (search_body four_results) |}
           [ ("page", JNumber 1); ("results", JArray four_results) ]
           four_results);
    reflexivity.
Defined.

(** C2, as the code has it.  When the key is configured and the provider
    answers a 2xx response whose [results] array is empty, the movies are
    empty, the error is the fixed text "No movies found for this query."
    and the request is the only one sent; the query text is in the [query]
    property and, between quotes, in the text for the model. *)
Theorem no_results_outcome
  (w : World) (input : SearchMoviesInput) (key : string) (response : Response)
  (fields : list (string * json)) :
  truthy (env w "TMDB_API_KEY") = Some key ->
  network w (search_url key (query input)) = inr response ->
  ok response = true ->
  json_body response = inr (JObject fields) ->
  get_property "results" fields = Some (JArray []) ->
  run (Index.searchMoviesHandler input) w
  = (inr {| Index.props :=
              {| Props.query := query input;
                 Props.movies := [];
                 Props.error := Some "No movies found for this query." |};
            Index.output := "No movies found for " ++ dquote ++ query input ++ dquote ++ "." |},
     [search_url key (query input)])
  /\ run (Edge.searchMoviesTool input) w
     = (inr {| Edge.content :=
                 [ {| Edge.type := "text";
                      Edge.text := "No movies found for " ++ dquote ++ query input ++ dquote ++ "." |} ];
               Edge.structuredContent :=
                 {| Props.query := query input;
                    Props.movies := [];
                    Props.error := Some "No movies found for this query." |} |},
        [search_url key (query input)])
  /\ occurs_in (dquote ++ query input ++ dquote)
       ("No movies found for " ++ dquote ++ query input ++ dquote ++ ".").
Proof.
  intros Hkey Hnet Hok Hbody Hres.
  pose proof (schema_of_results fields [] [] Hres eq_refl) as Hfit.
  repeat split.
  - exact (index_no_results w input key Hkey _ _ _ Hnet Hok Hbody Hfit eq_refl).
  - exact (edge_no_results w input key Hkey _ _ _ Hnet Hok Hbody Hfit eq_refl).
  - exists "No movies found for ", ".". now rewrite !append_assoc.
Qed.

Lemma no_results_outcome_witness :
  fst (run (Index.searchMoviesHandler matrix)
         (world_answering {| status := 200; json_body := inr (search_body []) |}))
  = inr {| Index.props :=
             {| Props.query := "Matrix";
                Props.movies := [];
                Props.error := Some "No movies found for this query." |};
           Index.output := "No movies found for " ++ dquote ++ "Matrix" ++ dquote ++ "." |}.
Proof.
  destruct (no_results_outcome
              (world_answering {| status := 200; json_body := inr (search_body []) |})
              matrix "secret" {| status := 200; json_body := inr (search_body []) |}
              [ ("page", JNumber 1); ("results", JArray []) ]
              eq_refl eq_refl eq_refl eq_refl eq_refl) as (Hindex & _).
  rewrite Hindex. reflexivity.
Defined.

(** C2, as stated, fails: for the query "Matrix" and an empty [results]
    array the error field is "No movies found for this query.", a text in
    which "Matrix" does not occur. *)
Lemma no_results_error_omits_query :
  exists r : Index.WidgetResponse,
    fst (run (Index.searchMoviesHandler matrix)
           (world_answering {| status := 200; json_body := inr (search_body []) |}))
    = inr r
    /\ Props.movies (Index.props r) = []
    /\ Props.error (Index.props r) = Some "No movies found for this query."
    /\ ~ occurs_in (query matrix) "No movies found for this query.".
Proof.
  eexists. repeat split.
  intros Hocc. apply occurs_in_includes in Hocc. discriminate Hocc.
Qed.

(** C3.  With [TMDB_API_KEY] unset or empty, both handlers return without
    a single request sent; the movies are empty and the error, the same in
    both, names [TMDB_API_KEY]. *)
Theorem missing_key_sends_nothing (w : World) (input : SearchMoviesInput) :
  env w "TMDB_API_KEY" = None \/ env w "TMDB_API_KEY" = Some EmptyString ->
  run (Index.searchMoviesHandler input) w
  = (inr {| Index.props :=
              {| Props.query := query input;
                 Props.movies := [];
                 Props.error := Some "TMDB API key is missing. Set TMDB_API_KEY and try again." |};
            Index.output := "Movie search failed because the TMDB API key is not configured." |},
     [])
  /\ run (Edge.searchMoviesTool input) w
     = (inr {| Edge.content :=
                 [ {| Edge.type := "text";
                      Edge.text := "Movie search failed because TMDB_API_KEY is not configured." |} ];
               Edge.structuredContent :=
                 {| Props.query := query input;
                    Props.movies := [];
                    Props.error := Some "TMDB API key is missing. Set TMDB_API_KEY and try again." |} |},
        [])
  /\ occurs_in "TMDB_API_KEY" "TMDB API key is missing. Set TMDB_API_KEY and try again.".
Proof.
  intros Hunset. apply truthy_unset in Hunset. repeat split.
  - now apply index_missing_key.
  - now apply edge_missing_key.
  - exists "TMDB API key is missing. Set ", " and try again.". reflexivity.
Qed.

Lemma missing_key_sends_nothing_witness :
  snd (run (Index.searchMoviesHandler matrix) world_without_key) = []
  /\ snd (run (Edge.searchMoviesTool matrix) world_without_key) = [].
Proof.
  destruct (missing_key_sends_nothing world_without_key matrix (or_introl eq_refl))
    as (Hindex & Hedge & _).
  rewrite Hindex, Hedge. split; reflexivity.
Defined.

(** C4, as the code has it.  When the key is configured and the response
    is not [ok], both handlers send that one request and return no movies,
    the text of an HTTP failure and an error that starts with
    [TMDB request failed with status <code>.], the code in decimal.  The
    edge function stops there.  The mcp-use server reads the body: when it
    is JSON with a non-empty string under [status_message], a space and
    that message follow, less the white space at its end; when the body is
    not JSON, or has no such message, nothing follows. *)
Theorem http_failure_outcome
  (w : World) (input : SearchMoviesInput) (key : string) (response : Response) :
  truthy (env w "TMDB_API_KEY") = Some key ->
  network w (search_url key (query input)) = inr response ->
  ok response = false ->
  let line := "TMDB request failed with status " ++ String_of_nat (status response) ++ "." in
  let detail :=
    match json_body response with
    | inr body =>
        match status_message body with
        | Some message => trimEnd (" " ++ message)
        | None => EmptyString
        end
    | inl _ => EmptyString
    end in
  run (Index.searchMoviesHandler input) w
  = (inr {| Index.props :=
              {| Props.query := query input;
                 Props.movies := [];
                 Props.error := Some (line ++ detail) |};
            Index.output := "Movie search failed due to an external API error." |},
     [search_url key (query input)])
  /\ run (Edge.searchMoviesTool input) w
     = (inr {| Edge.content :=
                 [ {| Edge.type := "text";
                      Edge.text := "Movie search failed due to an external API error." |} ];
               Edge.structuredContent :=
                 {| Props.query := query input;
                    Props.movies := [];
                    Props.error := Some line |} |},
        [search_url key (query input)])
  /\ occurs_in (String_of_nat (status response)) (line ++ detail)
  /\ occurs_in (String_of_nat (status response)) line
  /\ (forall body message,
        json_body response = inr body ->
        status_message body = Some message ->
        trimEnd message = message ->
        detail = " " ++ message).
Proof.
  intros Hkey Hnet Hok line detail.
  assert (Hdetail : trimEnd (error_details response) = detail).
  { unfold error_details, detail.
    destruct (json_body response) as [e|body]; [reflexivity|].
    destruct (status_message body); reflexivity. }
  split; [|split; [|split; [|split]]].
  - rewrite (index_http_failure w input key Hkey response Hnet Hok), Hdetail.
    reflexivity.
  - exact (edge_http_failure w input key Hkey response Hnet Hok).
  - exists "TMDB request failed with status ", ("." ++ detail).
    unfold line. now rewrite !append_assoc.
  - exists "TMDB request failed with status ", ".". reflexivity.
  - intros body message Hbody Hmessage Hfixed. unfold detail.
    rewrite Hbody, Hmessage.
    rewrite trimEnd_after_space, Hfixed; [reflexivity|].
    apply trimEnd_fixed_not_blank; [|exact Hfixed].
    exact (status_message_not_empty body message Hmessage).
Qed.

Lemma http_failure_outcome_witness :
  fst (run (Index.searchMoviesHandler matrix) (world_answering unauthorized))
  = inr {| Index.props :=
             {| Props.query := "Matrix";
                Props.movies := [];
                Props.error :=
                  Some "TMDB request failed with status 401. Invalid API key: You must be granted a valid key." |};
           Index.output := "Movie search failed due to an external API error." |}.
Proof.
  destruct (http_failure_outcome (world_answering unauthorized) matrix "secret"
              unauthorized eq_refl eq_refl eq_refl) as (Hindex & _).
  rewrite Hindex. reflexivity.
Defined.

(** C4, as stated, fails on the edge function: to a 401 whose body carries
    the [status_message] "Invalid API key: You must be granted a valid
    key." it answers the status line alone. *)
Lemma edge_drops_status_message :
  exists r' : Edge.ToolResult,
    fst (run (Edge.searchMoviesTool matrix) (world_answering unauthorized)) = inr r'
    /\ ok unauthorized = false
    /\ status_message invalid_key_body
       = Some "Invalid API key: You must be granted a valid key."
    /\ Props.error (Edge.structuredContent r')
       = Some "TMDB request failed with status 401."
    /\ ~ occurs_in "Invalid API key: You must be granted a valid key."
         "TMDB request failed with status 401.".
Proof.
  eexists. repeat split.
  intros Hocc. apply occurs_in_includes in Hocc. discriminate Hocc.
Qed.

(** C5.  When the key is configured and the search throws [e] (because
    [fetch] rejects, because the body of a 2xx response is not JSON, or
    because its JSON does not fit the schema), both handlers return the
    network-or-parsing failure: no movies, the text of that failure and
    not the one of an HTTP failure, and an error that ends with the
    message of [e], or with "Unknown network error" when [e] is not an
    [Error]. *)
Theorem exception_is_network_or_parse_failure
  (w : World) (input : SearchMoviesInput) (key : string) (e : thrown) :
  truthy (env w "TMDB_API_KEY") = Some key ->
  search_throws w (search_url key (query input)) e ->
  let message :=
    match e with
    | ErrorInstance message => message
    | NotAnError => "Unknown network error"
    end in
  run (Index.searchMoviesHandler input) w
  = (inr {| Index.props :=
              {| Props.query := query input;
                 Props.movies := [];
                 Props.error := Some ("Unable to fetch movie results right now: " ++ message) |};
            Index.output := "Movie search failed due to a network or parsing error." |},
     [search_url key (query input)])
  /\ run (Edge.searchMoviesTool input) w
     = (inr {| Edge.content :=
                 [ {| Edge.type := "text";
                      Edge.text := "Movie search failed due to a network or parsing error." |} ];
               Edge.structuredContent :=
                 {| Props.query := query input;
                    Props.movies := [];
                    Props.error := Some ("Unable to fetch movie results right now: " ++ message) |} |},
        [search_url key (query input)])
  /\ occurs_in message ("Unable to fetch movie results right now: " ++ message)
  /\ "Movie search failed due to a network or parsing error."
     <> "Movie search failed due to an external API error.".
Proof.
  intros Hkey Hthrows message. repeat split.
  - exact (index_exception w input key Hkey e Hthrows).
  - exact (edge_exception w input key Hkey e Hthrows).
  - exists "Unable to fetch movie results right now: ", EmptyString.
    now rewrite append_nil_r.
  - discriminate.
Qed.

(** A 200 whose body is not JSON: the [SyntaxError] of [response.json()]
    ends in the error of the outcome. *)
Lemma exception_is_network_or_parse_failure_witness :
  fst (run (Index.searchMoviesHandler matrix) (world_answering html_page))
  = inr {| Index.props :=
             {| Props.query := "Matrix";
                Props.movies := [];
                Props.error :=
                  Some "Unable to fetch movie results right now: Unexpected token < in JSON at position 0" |};
           Index.output := "Movie search failed due to a network or parsing error." |}.
Proof.
  destruct (exception_is_network_or_parse_failure
              (world_answering html_page) matrix "secret"
              (ErrorInstance "Unexpected token < in JSON at position 0")
              eq_refl
              (body_not_json (world_answering html_page) (search_url "secret" "Matrix")
                 html_page _ eq_refl eq_refl eq_refl)) as (Hindex & _).
  rewrite Hindex. reflexivity.
Defined.

(** C6.  When the key is configured and the provider answers a 2xx
    response with three or more well-formed results, the payload has no
    error, exactly three movies, and the text is
    [Found 3 movie result(s) for "<query>".] with the query as given. *)
Theorem three_or_more_results
  (w : World) (input : SearchMoviesInput) (key : string) (response : Response)
  (fields : list (string * json)) (elements : list json) (entries : list TmdbMovie) :
  truthy (env w "TMDB_API_KEY") = Some key ->
  network w (search_url key (query input)) = inr response ->
  ok response = true ->
  json_body response = inr (JObject fields) ->
  get_property "results" fields = Some (JArray elements) ->
  z_array tmdbMovieSchema elements = Some entries ->
  3 <= length elements ->
  exists (r : Index.WidgetResponse) (r' : Edge.ToolResult),
    fst (run (Index.searchMoviesHandler input) w) = inr r
    /\ fst (run (Edge.searchMoviesTool input) w) = inr r'
    /\ Props.error (Index.props r) = None
    /\ Props.error (Edge.structuredContent r') = None
    /\ length (Props.movies (Index.props r)) = 3
    /\ length (Props.movies (Edge.structuredContent r')) = 3
    /\ Index.output r
       = "Found 3 movie result(s) for " ++ dquote ++ query input ++ dquote ++ "."
    /\ Edge.content r'
       = [ {| Edge.type := "text";
              Edge.text := "Found 3 movie result(s) for "
                           ++ dquote ++ query input ++ dquote ++ "." |} ].
Proof.
  intros Hkey Hnet Hok Hbody Hres Hentries Hthree.
  pose proof (schema_of_results _ _ _ Hres Hentries) as Hfit.
  pose proof (z_array_length _ _ _ Hentries) as Hlen.
  assert (Hne : results {| results := entries |} <> []).
  { simpl. intros ->. simpl in Hlen. lia. }
  assert (Hcount : length (map mapTmdbMovieToCard (firstn 3 entries)) = 3).
  { rewrite length_map, length_firstn. lia. }
  rewrite (index_found w input key Hkey _ _ _ Hnet Hok Hbody Hfit Hne).
  rewrite (edge_found w input key Hkey _ _ _ Hnet Hok Hbody Hfit Hne).
  cbn [results fst] in *. do 2 eexists.
  split; [reflexivity|]. split; [reflexivity|].
  cbn [Index.props Edge.structuredContent Props.error Props.movies Index.output Edge.content].
  rewrite Hcount. repeat split.
Qed.

Lemma three_or_more_results_witness :
  exists (r : Index.WidgetResponse),
    fst (run (Index.searchMoviesHandler matrix)
           (world_answering {| status := 200; json_body := inr (search_body four_results) |}))
    = inr r
    /\ Props.error (Index.props r) = None
    /\ length (Props.movies (Index.props r)) = 3
    /\ Index.output r = "Found 3 movie result(s) for " ++ dquote ++ "Matrix" ++ dquote ++ ".".
Proof.
  destruct (three_or_more_results
              (world_answering {| status := 200; json_body := inr (search_body four_results) |})
              matrix "secret"
              {| status := 200; json_body := inr (search_body four_results) |}
              [ ("page", JNumber 1); ("results", JArray four_results) ]
              four_results
              (match z_array tmdbMovieSchema four_results with
               | Some entries => entries
               | None => []
               end)
              eq_refl eq_refl eq_refl eq_refl eq_refl eq_refl)
    as (r & r' & Hr & _ & Herr & _ & Hlen & _ & Hout & _).
  - simpl. lia.
  - exists r. repeat split; assumption.
Defined.

(** C7.  The release year of a card is the part of [release_date] before
    its first "-", the whole of it when it has none, and "N/A" when
    [release_date] is absent, null or empty or when that part is empty. *)
Theorem release_year_is_first_segment (movie : TmdbMovie) :
  let year := Card.releaseYear (mapTmdbMovieToCard movie) in
  (Raw.release_date movie = undefined
   \/ Raw.release_date movie = null
   \/ Raw.release_date movie = value EmptyString -> year = "N/A")
  /\ (forall before rest,
        Raw.release_date movie = value (before ++ "-" ++ rest) ->
        dash_free before ->
        year = if string_falsy before then "N/A" else before)
  /\ (forall date,
        Raw.release_date movie = value date ->
        dash_free date ->
        year = if string_falsy date then "N/A" else date)
  /\ formatReleaseYear (value "1999-03-31") = "1999"
  /\ formatReleaseYear (value "2020") = "2020"
  /\ formatReleaseYear (value "-03-31") = "N/A".
Proof.
  cbn [mapTmdbMovieToCard Card.releaseYear]. repeat split.
  - now intros [-> | [-> | ->]].
  - intros before rest -> Hfree. unfold formatReleaseYear.
    destruct (split_at_first_dash before rest Hfree) as (segments & ->).
    now destruct before.
  - intros date -> Hfree. unfold formatReleaseYear.
    rewrite (split_dash_free date Hfree). now destruct date.
Qed.

Lemma release_year_is_first_segment_witness :
  Card.releaseYear
    (mapTmdbMovieToCard (the_matrix (value "1999-03-31") undefined undefined))
  = "1999".
Proof.
  destruct (release_year_is_first_segment
              (the_matrix (value "1999-03-31") undefined undefined))
    as (_ & Hdash & _).
  apply (Hdash "1999" "03-31" eq_refl).
  apply dash_free_by_scan. reflexivity.
Defined.

(** C8.  The rating of a card is 0 when [vote_average] is absent or null.
    Otherwise, for every binary64 [vote_average], it is [vote_average]
    rounded to one decimal place as a JavaScript number has it: the
    binary64 nearest to [n/10], where [n/10] is the number of tenths
    nearest to [vote_average], the one further from zero of two.  The
    number written 7.666 gives the number written 7.7. *)
Theorem rating_is_rounded_to_one_decimal (movie : TmdbMovie) :
  let rating := Card.rating (mapTmdbMovieToCard movie) in
  (Raw.vote_average movie = undefined \/ Raw.vote_average movie = null ->
   rating == 0)%Q
  /\ (forall x : Q,
        Raw.vote_average movie = value x ->
        binary64 x ->
        exists n : Z, nearest_tenth x n /\ nearest_binary64 (n # 10) rating)
  /\ (Number_toFixed1 seven_point_666 == seven_point_7)%Q
  /\ nearest_binary64 (77 # 10) seven_point_7.
Proof.
  cbn [mapTmdbMovieToCard Card.rating].
  split; [|split; [|split]].
  - intros [-> | ->]; vm_compute; reflexivity.
  - intros x -> Hx. exact (Number_toFixed1_nearest x Hx).
  - vm_compute. reflexivity.
  - assert (E : (binary64_round (77 # 10) == seven_point_7)%Q)
      by (vm_compute; reflexivity).
    split.
    + exists 8669429282688205%Z, (-50)%Z. repeat split; try lia.
    + intros y Hy. rewrite <- E. now apply binary64_round_nearest.
Qed.

Lemma rating_is_rounded_to_one_decimal_witness :
  exists n : Z,
    nearest_tenth seven_point_666 n
    /\ nearest_binary64 (n # 10)
         (Card.rating
            (mapTmdbMovieToCard (the_matrix undefined (value seven_point_666) undefined))).
Proof.
  destruct (rating_is_rounded_to_one_decimal
              (the_matrix undefined (value seven_point_666) undefined))
    as (_ & Hround & _).
  apply (Hround seven_point_666 eq_refl).
  exists 2157787171463889%Z, (-48)%Z. repeat split; try lia.
Defined.

(** C9, as the code has it.  The poster URL of a card is null when
    [poster_path] is absent, null or the empty string, and otherwise the
    base URL of the image CDN followed by [poster_path] as it is. *)
Theorem poster_url_of_path (movie : TmdbMovie) :
  let url := Card.posterUrl (mapTmdbMovieToCard movie) in
  (Raw.poster_path movie = undefined
   \/ Raw.poster_path movie = null
   \/ Raw.poster_path movie = value EmptyString -> url = None)
  /\ (forall path,
        Raw.poster_path movie = value path ->
        path <> EmptyString ->
        url = Some ("https://image.tmdb.org/t/p/w500" ++ path))
  /\ buildPosterUrl (value "/abc.jpg") = Some "https://image.tmdb.org/t/p/w500/abc.jpg".
Proof.
  cbn [mapTmdbMovieToCard Card.posterUrl]. repeat split.
  - now intros [-> | [-> | ->]].
  - intros path -> Hne. destruct path; [now elim Hne | reflexivity].
Qed.

Lemma poster_url_of_path_witness :
  Card.posterUrl (mapTmdbMovieToCard (the_matrix undefined undefined (value "/abc.jpg")))
  = Some "https://image.tmdb.org/t/p/w500/abc.jpg".
Proof.
  destruct (poster_url_of_path (the_matrix undefined undefined (value "/abc.jpg")))
    as (_ & Hpath & _).
  apply (Hpath "/abc.jpg" eq_refl). discriminate.
Defined.

(** C9, as stated, fails: a [poster_path] that is the empty string is
    neither absent nor null, and its poster URL is null, not the base URL
    followed by nothing. *)
Lemma empty_poster_path_has_no_url :
  Raw.poster_path (the_matrix undefined undefined (value EmptyString)) <> undefined
  /\ Raw.poster_path (the_matrix undefined undefined (value EmptyString)) <> null
  /\ Card.posterUrl (mapTmdbMovieToCard (the_matrix undefined undefined (value EmptyString)))
     = None
  /\ Card.posterUrl (mapTmdbMovieToCard (the_matrix undefined undefined (value EmptyString)))
     <> Some (TMDB_POSTER_BASE_URL ++ EmptyString).
Proof. repeat split; discriminate. Qed.

(** C10.  Whatever the world does, both handlers return (they never
    throw), and the payload they return has an [error] exactly when its
    [movies] are empty; the widget never meets its empty state, no error
    and no movies. *)
Theorem error_iff_no_movies (w : World) (input : SearchMoviesInput) :
  (exists (r : Index.WidgetResponse) (sent : list URL),
     run (Index.searchMoviesHandler input) w = (inr r, sent)
     /\ (Props.error (Index.props r) <> None <-> Props.movies (Index.props r) = [])
     /\ shows_empty_state (Index.props r) = false)
  /\ (exists (r' : Edge.ToolResult) (sent : list URL),
        run (Edge.searchMoviesTool input) w = (inr r', sent)
        /\ (Props.error (Edge.structuredContent r') <> None
            <-> Props.movies (Edge.structuredContent r') = [])
        /\ shows_empty_state (Edge.structuredContent r') = false).
Proof.
  destruct (handler_paths w input)
    as [Hnone | (key & Hkey & [(e & Hthrows) | (response & Hnet & Hcases)])].
  - rewrite (index_missing_key w input Hnone), (edge_missing_key w input Hnone).
    split; do 2 eexists; (split; [reflexivity|]); simpl; repeat split; congruence.
  - rewrite (index_exception w input key Hkey e Hthrows).
    rewrite (edge_exception w input key Hkey e Hthrows).
    split; do 2 eexists; (split; [reflexivity|]); simpl; repeat split; congruence.
  - destruct Hcases as [Hok | (Hok & body & payload & Hbody & Hfit)].
    + rewrite (index_http_failure w input key Hkey response Hnet Hok).
      rewrite (edge_http_failure w input key Hkey response Hnet Hok).
      split; do 2 eexists; (split; [reflexivity|]); simpl; repeat split; congruence.
    + destruct (results payload) as [|m ms] eqn:Hres.
      * rewrite (index_no_results w input key Hkey _ _ _ Hnet Hok Hbody Hfit Hres).
        rewrite (edge_no_results w input key Hkey _ _ _ Hnet Hok Hbody Hfit Hres).
        split; do 2 eexists; (split; [reflexivity|]); simpl; repeat split; congruence.
      * assert (Hne : results payload <> []) by (rewrite Hres; discriminate).
        rewrite (index_found w input key Hkey _ _ _ Hnet Hok Hbody Hfit Hne).
        rewrite (edge_found w input key Hkey _ _ _ Hnet Hok Hbody Hfit Hne).
        rewrite Hres.
        split; do 2 eexists; (split; [reflexivity|]); simpl; repeat split;
          intros H; try discriminate H; now elim H.
Qed.

(** * Further properties *)

(** ** The routes of the edge function *)

Lemma slash_free_cons (c : ascii) (s : string) :
  slash_free (String c s) -> Ascii.eqb c "/" = false /\ slash_free s.
Proof.
  intros H. split.
  - destruct (Ascii.eqb_spec c "/") as [->|]; [|reflexivity].
    elim H. exists EmptyString, s. reflexivity.
  - intros (a & b & ->). apply H. exists (String c a), b. reflexivity.
Qed.

Lemma slash_free_by_scan (s : string) : includes "/" s = false -> slash_free s.
Proof. intros Hscan Hocc. apply occurs_in_includes in Hocc. congruence. Qed.

Lemma after_prefix_append (p s : string) : after_prefix p (p ++ s) = Some s.
Proof.
  induction p as [|c p IH]; simpl; [now destruct s|].
  now rewrite Ascii.eqb_refl.
Qed.

Lemma after_prefix_inv (p s r : string) : after_prefix p s = Some r -> s = p ++ r.
Proof.
  revert s. induction p as [|c p IH]; intros s H.
  - destruct s; inversion H; reflexivity.
  - destruct s as [|b s]; [discriminate|]. simpl in H.
    destruct (Ascii.eqb_spec c b) as [->|]; [|discriminate].
    simpl. now rewrite (IH s H).
Qed.

Lemma span_segment_whole (name : string) :
  slash_free name -> span_segment name = (name, EmptyString).
Proof.
  induction name as [|c name IH]; intros H; simpl; [reflexivity|].
  apply slash_free_cons in H as [-> H]. now rewrite (IH H).
Qed.

Lemma span_segment_at_slash (name tail : string) :
  slash_free name -> span_segment (name ++ "/" ++ tail) = (name, "/" ++ tail).
Proof.
  induction name as [|c name IH]; intros H; [reflexivity|].
  apply slash_free_cons in H as [Hc H].
  change (String c name ++ "/" ++ tail) with (String c (name ++ "/" ++ tail)).
  cbn [span_segment]. now rewrite Hc, (IH H).
Qed.

Lemma span_segment_inv (s name rest : string) :
  span_segment s = (name, rest) ->
  s = name ++ rest /\ slash_free name
  /\ (rest = EmptyString \/ exists tail, rest = "/" ++ tail).
Proof.
  revert name rest. induction s as [|c s IH]; intros name rest H; simpl in H.
  - inversion H; subst. repeat split; [|now left].
    intros (a & b & E). now destruct a.
  - destruct (Ascii.eqb_spec c "/") as [->|Hc].
    + inversion H; subst. repeat split; [|right; now exists s].
      intros (a & b & E). now destruct a.
    + destruct (span_segment s) as [name' tail'] eqn:E. inversion H; subst.
      destruct (IH name' rest eq_refl) as (-> & Hfree & Hrest).
      repeat split; [|exact Hrest].
      intros (a & b & Eocc). destruct a as [|x a]; simpl in Eocc.
      * inversion Eocc. congruence.
      * inversion Eocc; subst. apply Hfree. now exists a, b.
Qed.

(** The first slash of a path is where it is. *)
Lemma first_slash_unique (a b x y : string) :
  slash_free a -> slash_free b -> a ++ "/" ++ x = b ++ "/" ++ y -> a = b /\ x = y.
Proof.
  intros Ha Hb E.
  pose proof (span_segment_at_slash a x Ha) as Sa.
  pose proof (span_segment_at_slash b y Hb) as Sb.
  rewrite E, Sb in Sa. inversion Sa; subst. now split.
Qed.

Lemma match_segment_tail_inv (s name : string) (group : option string) :
  match_segment_tail s = Some (name, group) ->
  name <> EmptyString /\ slash_free name
  /\ match group with
     | Some g => s = name ++ g /\ exists tail, g = "/" ++ tail
     | None => s = name
     end.
Proof.
  unfold match_segment_tail. destruct (span_segment s) as [n rest] eqn:E.
  destruct (span_segment_inv s n rest E) as (-> & Hfree & Hrest).
  destruct n as [|c n]; [discriminate|]. cbn [string_falsy].
  destruct rest as [|c' tail].
  - intros H. inversion H; subst. repeat split; try assumption; try discriminate.
    now rewrite append_nil_r.
  - destruct (has_line_terminator tail); [discriminate|].
    intros H. inversion H; subst. repeat split; try assumption; try discriminate.
    destruct Hrest as [Hrest | (t & Hrest)]; [discriminate|].
    now exists t.
Qed.

Lemma match_segment_tail_segment (name : string) :
  name <> EmptyString -> slash_free name ->
  match_segment_tail name = Some (name, None).
Proof.
  intros Hne Hfree. unfold match_segment_tail.
  rewrite (span_segment_whole name Hfree). destruct name; [now elim Hne | reflexivity].
Qed.

Lemma match_segment_tail_path (name tail : string) :
  name <> EmptyString -> slash_free name -> has_line_terminator tail = false ->
  match_segment_tail (name ++ "/" ++ tail) = Some (name, Some ("/" ++ tail)).
Proof.
  intros Hne Hfree Hline. unfold match_segment_tail.
  rewrite (span_segment_at_slash name tail Hfree).
  destruct name; [now elim Hne|]. cbn [string_falsy append]. now rewrite Hline.
Qed.

(** A path of two segments is not under [/functions/v1/<name>]. *)
Lemma functionsMatch_two_segments (name tail : string) :
  slash_free name -> slash_free tail ->
  functionsMatch ("/" ++ name ++ "/" ++ tail) = None.
Proof.
  intros Hname Htail. unfold functionsMatch.
  destruct (after_prefix "/functions/v1/" ("/" ++ name ++ "/" ++ tail)) as [s|] eqn:E;
    [|reflexivity].
  apply after_prefix_inv in E. exfalso.
  change ("/" ++ name ++ "/" ++ tail) with (String "/" (name ++ "/" ++ tail)) in E.
  change ("/functions/v1/" ++ s) with (String "/" ("functions" ++ "/" ++ ("v1/" ++ s))) in E.
  inversion E as [E'].
  destruct (first_slash_unique name "functions" tail ("v1/" ++ s) Hname) as (_ & Htl);
    [apply slash_free_by_scan; reflexivity | exact E' |].
  apply Htail. exists "v1", s. exact Htl.
Qed.

Lemma functionsMatch_one_segment (name : string) :
  slash_free name -> functionsMatch ("/" ++ name) = None.
Proof.
  intros Hname. unfold functionsMatch.
  destruct (after_prefix "/functions/v1/" ("/" ++ name)) as [s|] eqn:E; [|reflexivity].
  apply after_prefix_inv in E. exfalso. inversion E as [E'].
  apply Hname. exists "functions", ("v1/" ++ s). exact E'.
Qed.

Lemma functionsMatch_other_name (name tail : string) :
  slash_free name -> name <> "functions" ->
  functionsMatch ("/" ++ name ++ "/" ++ tail) = None.
Proof.
  intros Hname Hother. unfold functionsMatch.
  destruct (after_prefix "/functions/v1/" ("/" ++ name ++ "/" ++ tail)) as [s|] eqn:E;
    [|reflexivity].
  apply after_prefix_inv in E. exfalso.
  change ("/" ++ name ++ "/" ++ tail) with (String "/" (name ++ "/" ++ tail)) in E.
  change ("/functions/v1/" ++ s) with (String "/" ("functions" ++ "/" ++ ("v1/" ++ s))) in E.
  inversion E as [E'].
  destruct (first_slash_unique name "functions" tail ("v1/" ++ s) Hname) as (Hn & _);
    [apply slash_free_by_scan; reflexivity | exact E' |].
  now apply Hother.
Qed.

Lemma functionsMatch_inv (pathname : string) (group : option string) :
  functionsMatch pathname = Some group ->
  exists name,
    name <> EmptyString /\ slash_free name
    /\ match group with
       | Some g => pathname = "/functions/v1/" ++ name ++ g /\ exists tail, g = "/" ++ tail
       | None => pathname = "/functions/v1/" ++ name
       end.
Proof.
  unfold functionsMatch.
  destruct (after_prefix "/functions/v1/" pathname) as [s|] eqn:E; [|discriminate].
  apply after_prefix_inv in E.
  destruct (match_segment_tail s) as [[name g]|] eqn:M; [|discriminate].
  intros H. inversion H; subst group.
  destruct (match_segment_tail_inv s name g M) as (Hne & Hfree & Hg).
  exists name. repeat split; try assumption.
  destruct g as [g|].
  - destruct Hg as (-> & Htail). now split.
  - now subst s.
Qed.

Lemma functionNameMatch_inv (pathname name : string) (group : option string) :
  functionNameMatch pathname = Some (name, group) ->
  name <> EmptyString /\ slash_free name
  /\ match group with
     | Some g => pathname = "/" ++ name ++ g /\ exists tail, g = "/" ++ tail
     | None => pathname = "/" ++ name
     end.
Proof.
  unfold functionNameMatch.
  destruct (after_prefix "/" pathname) as [s|] eqn:E; [|discriminate].
  apply after_prefix_inv in E. intros M.
  destruct (match_segment_tail_inv s name group M) as (Hne & Hfree & Hg).
  repeat split; try assumption.
  destruct group as [g|].
  - destruct Hg as (-> & Htail). now split.
  - now subst s.
Qed.

Lemma rewritten_mcp_is_route (pathname : string) :
  rewriteSupabasePath pathname = "/mcp" -> mcp_route pathname.
Proof.
  unfold rewriteSupabasePath.
  destruct (functionsMatch pathname) as [group1|] eqn:F.
  - destruct (functionsMatch_inv pathname group1 F) as (name & Hne & Hfree & Hg).
    destruct group1 as [g|]; [|discriminate].
    destruct Hg as (-> & tail & ->). cbn [string_falsy append].
    intros E. right. exists name. repeat split; try assumption.
    left. now rewrite <- E.
  - destruct (functionNameMatch pathname) as [[name [g|]]|] eqn:M;
      try (intros ->; now left).
    destruct (functionNameMatch_inv pathname name (Some g) M) as (Hne & Hfree & -> & tail & ->).
    cbn [string_falsy append]. intros E. right. exists name.
    repeat split; try assumption. right. now rewrite <- E.
Qed.

Lemma route_is_rewritten_to_mcp (pathname : string) :
  mcp_route pathname -> rewriteSupabasePath pathname = "/mcp".
Proof.
  intros [-> | (name & Hne & Hfree & [-> | ->])].
  - reflexivity.
  - pose proof (match_segment_tail_path name "mcp" Hne Hfree eq_refl) as M.
    unfold rewriteSupabasePath, functionsMatch. rewrite after_prefix_append.
    cbn [append] in M. now rewrite M.
  - pose proof (match_segment_tail_path name "mcp" Hne Hfree eq_refl) as M.
    pose proof (functionsMatch_two_segments name "mcp" Hfree
                  (slash_free_by_scan "mcp" eq_refl)) as F.
    cbn [append] in M, F. unfold rewriteSupabasePath.
    change ("/" ++ name ++ "/mcp") with (String "/" (name ++ "/mcp")).
    rewrite F. unfold functionNameMatch.
    change (String "/" (name ++ "/mcp")) with ("/" ++ (name ++ "/mcp")).
    rewrite (after_prefix_append "/"). now rewrite M.
Qed.

(** X1.  The rewritten path is [/mcp] exactly for the paths [/mcp],
    [/functions/v1/<name>/mcp] and [/<name>/mcp], with a name of one
    segment. *)
Theorem rewritten_to_mcp_iff (pathname : string) :
  rewriteSupabasePath pathname = "/mcp" <-> mcp_route pathname.
Proof.
  split.
  - apply rewritten_mcp_is_route.
  - apply route_is_rewritten_to_mcp.
Qed.

(** X2.  For a function name of one segment and a path after it without a
    line break, [rewriteSupabasePath] strips [/functions/v1/<name>], and
    [/<name>] when the name is not [functions]; it answers [/] to the bare
    [/functions/v1/<name>] and leaves a path of one segment as it is. *)
Theorem function_prefix_is_stripped (name tail : string) :
  name <> EmptyString ->
  slash_free name ->
  has_line_terminator tail = false ->
  rewriteSupabasePath ("/functions/v1/" ++ name ++ "/" ++ tail) = "/" ++ tail
  /\ rewriteSupabasePath ("/functions/v1/" ++ name) = "/"
  /\ (name <> "functions" -> rewriteSupabasePath ("/" ++ name ++ "/" ++ tail) = "/" ++ tail)
  /\ rewriteSupabasePath ("/" ++ name) = "/" ++ name.
Proof.
  intros Hne Hfree Hline. repeat split.
  - unfold rewriteSupabasePath, functionsMatch. rewrite after_prefix_append.
    now rewrite (match_segment_tail_path name tail Hne Hfree Hline).
  - unfold rewriteSupabasePath, functionsMatch. rewrite after_prefix_append.
    now rewrite (match_segment_tail_segment name Hne Hfree).
  - intros Hother. unfold rewriteSupabasePath.
    rewrite (functionsMatch_other_name name tail Hfree Hother).
    unfold functionNameMatch. rewrite (after_prefix_append "/").
    now rewrite (match_segment_tail_path name tail Hne Hfree Hline).
  - unfold rewriteSupabasePath. rewrite (functionsMatch_one_segment name Hfree).
    unfold functionNameMatch. rewrite (after_prefix_append "/").
    now rewrite (match_segment_tail_segment name Hne Hfree).
Qed.

Lemma function_prefix_is_stripped_witness :
  rewriteSupabasePath "/functions/v1/movie-mcp/mcp/messages" = "/mcp/messages"
  /\ rewriteSupabasePath "/functions/v1/movie-mcp" = "/".
Proof.
  destruct (function_prefix_is_stripped "movie-mcp" "mcp/messages") as (H1 & H2 & _).
  - discriminate.
  - apply slash_free_by_scan. reflexivity.
  - reflexivity.
  - split; [exact H1 | exact H2].
Defined.

(** X3.  What [rewriteSupabasePath] returns is [/] or an end of the path
    it was given, and it starts with a slash when the path does: it
    invents no segment. *)
Theorem rewritten_path_is_root_or_suffix (pathname : string) :
  (rewriteSupabasePath pathname = "/"
   \/ exists before, pathname = before ++ rewriteSupabasePath pathname)
  /\ (String.prefix "/" pathname = true ->
      String.prefix "/" (rewriteSupabasePath pathname) = true).
Proof.
  unfold rewriteSupabasePath.
  destruct (functionsMatch pathname) as [group1|] eqn:F.
  - destruct (functionsMatch_inv pathname group1 F) as (name & Hne & Hfree & Hg).
    destruct group1 as [g|].
    + destruct Hg as (-> & tail & ->). cbn [string_falsy append]. split.
      * right. exists ("/functions/v1/" ++ name). now rewrite !append_assoc.
      * intros _. now destruct tail.
    + split; [now left | reflexivity].
  - destruct (functionNameMatch pathname) as [[name [g|]]|] eqn:M;
      try (split; [right; now exists EmptyString | trivial]).
    destruct (functionNameMatch_inv pathname name (Some g) M) as (Hne & Hfree & -> & tail & ->).
    cbn [string_falsy append]. split.
    + right. exists ("/" ++ name). now rewrite !append_assoc.
    + intros _. now destruct tail.
Qed.

Lemma rewritten_path_is_root_or_suffix_witness :
  String.prefix "/" (rewriteSupabasePath "/movie-mcp/mcp") = true.
Proof.
  apply (proj2 (rewritten_path_is_root_or_suffix "/movie-mcp/mcp")). reflexivity.
Defined.

(** ** The CORS headers of the edge function *)

Lemma filter_name_absent (name : string) (headers : Http.Headers) :
  filter (fun h => String.eqb (fst h) name)
    (filter (fun h => negb (String.eqb (fst h) name)) headers) = [].
Proof.
  induction headers as [|[k v] headers IH]; simpl; [reflexivity|].
  destruct (String.eqb k name) eqn:E; simpl; [exact IH|].
  now rewrite E.
Qed.

Lemma filter_name_other (name other : string) (headers : Http.Headers) :
  other <> name ->
  filter (fun h => String.eqb (fst h) other)
    (filter (fun h => negb (String.eqb (fst h) name)) headers)
  = filter (fun h => String.eqb (fst h) other) headers.
Proof.
  intros Hother. induction headers as [|[k v] headers IH]; simpl; [reflexivity|].
  destruct (String.eqb_spec k name) as [->|Hk]; simpl.
  - destruct (String.eqb_spec name other) as [E|_]; [now elim Hother | exact IH].
  - destruct (String.eqb k other); [now rewrite IH | exact IH].
Qed.

Lemma filter_set_lowered_same (name v : string) (headers : Http.Headers) :
  filter (fun h => String.eqb (fst h) name) (Http.set_lowered name v headers)
  = [(name, v)].
Proof.
  induction headers as [|[k old] headers IH]; simpl.
  - now rewrite String.eqb_refl.
  - destruct (String.eqb k name) eqn:E; simpl.
    + now rewrite String.eqb_refl, filter_name_absent.
    + now rewrite E.
Qed.

Lemma filter_set_lowered_other (name other v : string) (headers : Http.Headers) :
  other <> name ->
  filter (fun h => String.eqb (fst h) other) (Http.set_lowered name v headers)
  = filter (fun h => String.eqb (fst h) other) headers.
Proof.
  intros Hother. induction headers as [|[k old] headers IH]; simpl.
  - destruct (String.eqb_spec name other) as [E|_]; [now elim Hother | reflexivity].
  - destruct (String.eqb_spec k name) as [->|Hk]; simpl.
    + destruct (String.eqb_spec name other) as [E|_]; [now elim Hother|].
      now apply filter_name_other.
    + destruct (String.eqb k other); [now rewrite IH | exact IH].
Qed.

(** [get] after [set]: the value set, under any spelling of the name. *)
Lemma get_set_same (name name' v : string) (headers : Http.Headers) :
  Http.lowercase name' = Http.lowercase name ->
  Http.get name' (Http.set name v headers) = Some v.
Proof.
  intros E. unfold Http.get, Http.set. rewrite E, filter_set_lowered_same.
  reflexivity.
Qed.

(** [get] after [set] of another name: as before. *)
Lemma get_set_other (name name' v : string) (headers : Http.Headers) :
  Http.lowercase name' <> Http.lowercase name ->
  Http.get name' (Http.set name v headers) = Http.get name' headers.
Proof.
  intros E. unfold Http.get, Http.set. now rewrite filter_set_lowered_other.
Qed.

(** The three headers of [corsHeaders] laid over [headers]. *)
Lemma cors_overlay_get (headers : Http.Headers) (name v : string) :
  In (name, v) corsHeaders ->
  Http.get name
    (fold_left (fun headers entry => Http.set (fst entry) (snd entry) headers)
       corsHeaders headers) = Some v.
Proof.
  intros [E | [E | [E | []]]]; inversion E; subst; cbn [fold_left corsHeaders fst snd].
  - rewrite get_set_other, get_set_other by discriminate.
    now apply get_set_same.
  - rewrite get_set_other by discriminate. now apply get_set_same.
  - now apply get_set_same.
Qed.

Lemma cors_overlay_keeps (headers : Http.Headers) (name : string) :
  (forall k v, In (k, v) corsHeaders -> Http.lowercase name <> Http.lowercase k) ->
  Http.get name
    (fold_left (fun headers entry => Http.set (fst entry) (snd entry) headers)
       corsHeaders headers) = Http.get name headers.
Proof.
  intros Hother. cbn [fold_left corsHeaders fst snd].
  rewrite !get_set_other; [reflexivity | | | ];
    eapply Hother; cbn [corsHeaders In]; eauto.
Qed.

(** X4.  Every response the edge function returns, to a preflight, to an
    unknown path or from the MCP transport, carries the three headers of
    [corsHeaders] with their values, once each. *)
Theorem every_response_has_cors_headers
  (transport : Http.Request -> thrown + Http.Response) (req : Http.Request)
  (response : Http.Response) (name v : string) :
  Http.serve transport req = inr response ->
  In (name, v) corsHeaders ->
  Http.get name (Http.headers response) = Some v.
Proof.
  unfold Http.serve. intros Hserve Hin.
  destruct (String.eqb (Http.method req) "OPTIONS").
  - inversion Hserve; subst.
    destruct Hin as [E | [E | [E | []]]]; inversion E; reflexivity.
  - destruct (negb (String.eqb (rewriteSupabasePath (Http.pathname req)) "/mcp")).
    + inversion Hserve; subst.
      destruct Hin as [E | [E | [E | []]]]; inversion E; reflexivity.
    + destruct (transport req) as [e|answer]; [discriminate|].
      inversion Hserve; subst. cbn [Http.new_Response Http.headers].
      now apply cors_overlay_get.
Qed.

Lemma every_response_has_cors_headers_witness :
  Http.get "access-control-allow-origin"
    (Http.headers
       {| Http.status := 200;
          Http.statusText := EmptyString;
          Http.headers :=
            [ ("content-type", "text/event-stream");
              ("access-control-allow-origin", "*");
              ("access-control-allow-headers",
               "authorization, x-client-info, apikey, content-type, mcp-session-id, mcp-protocol-version, last-event-id");
              ("access-control-allow-methods", "GET,POST,DELETE,OPTIONS") ];
          Http.body := Some "event: message" |})
  = Some "*".
Proof.
  apply (every_response_has_cors_headers
           (fun _ => inr {| Http.status := 200;
                            Http.statusText := EmptyString;
                            Http.headers :=
                              [ ("content-type", "text/event-stream");
                                ("access-control-allow-origin", "https://example.org") ];
                            Http.body := Some "event: message" |})
           {| Http.method := "POST"; Http.pathname := "/functions/v1/movie-mcp/mcp" |}
           _ "Access-Control-Allow-Origin" "*").
  - reflexivity.
  - left. reflexivity.
Defined.

(** X5.  The edge function answers a preflight and a path that is not an
    MCP route by itself, with 200 [ok] and 404 [Not Found], whatever the
    transport would do; the requests it hands to the transport are the
    others, those that are not [OPTIONS] and go to [/mcp],
    [/functions/v1/<name>/mcp] or [/<name>/mcp]: the answer to one of them
    is the response of the transport, status, status text and body, under
    its own headers with the three of [corsHeaders] set, and an error
    thrown there is thrown on. *)
Theorem only_mcp_routes_reach_the_transport
  (transport : Http.Request -> thrown + Http.Response) (req : Http.Request) :
  (Http.method req = "OPTIONS" ->
   Http.serve transport req
   = inr {| Http.status := 200;
            Http.statusText := EmptyString;
            Http.headers :=
              (Http.of_record corsHeaders
               ++ [ ("content-type", "text/plain;charset=UTF-8") ])%list;
            Http.body := Some "ok" |})
  /\ (Http.method req <> "OPTIONS" ->
      ~ mcp_route (Http.pathname req) ->
      Http.serve transport req
      = inr {| Http.status := 404;
               Http.statusText := EmptyString;
               Http.headers :=
                 (Http.of_record corsHeaders
                  ++ [ ("content-type", "text/plain;charset=UTF-8") ])%list;
               Http.body := Some "Not Found" |})
  /\ (Http.method req <> "OPTIONS" ->
      mcp_route (Http.pathname req) ->
      match transport req with
      | inr response =>
          Http.serve transport req
          = inr {| Http.status := Http.status response;
                   Http.statusText := Http.statusText response;
                   Http.headers :=
                     Http.set "Access-Control-Allow-Methods" "GET,POST,DELETE,OPTIONS"
                       (Http.set "Access-Control-Allow-Headers"
                          "authorization, x-client-info, apikey, content-type, mcp-session-id, mcp-protocol-version, last-event-id"
                          (Http.set "Access-Control-Allow-Origin" "*"
                             (Http.headers response)));
                   Http.body := Http.body response |}
      | inl e => Http.serve transport req = inl e
      end).
Proof.
  unfold Http.serve. repeat split.
  - intros ->. reflexivity.
  - intros Hmethod Hroute.
    destruct (String.eqb_spec (Http.method req) "OPTIONS") as [E|_]; [now elim Hmethod|].
    destruct (String.eqb_spec (rewriteSupabasePath (Http.pathname req)) "/mcp") as [E|_].
    + elim Hroute. now apply rewritten_mcp_is_route.
    + reflexivity.
  - intros Hmethod Hroute.
    destruct (String.eqb_spec (Http.method req) "OPTIONS") as [E|_]; [now elim Hmethod|].
    apply route_is_rewritten_to_mcp in Hroute. rewrite Hroute. cbn [String.eqb negb].
    destruct (transport req) as [e|response]; reflexivity.
Qed.

(** X6.  A response of the transport passes through the edge function
    with its status, status text and body, and with every header that is
    not one of the three of [corsHeaders]; those three are overwritten. *)
Theorem transport_response_passes_through
  (transport : Http.Request -> thrown + Http.Response) (req : Http.Request)
  (response : Http.Response) :
  Http.method req <> "OPTIONS" ->
  mcp_route (Http.pathname req) ->
  transport req = inr response ->
  exists answer,
    Http.serve transport req = inr answer
    /\ Http.status answer = Http.status response
    /\ Http.statusText answer = Http.statusText response
    /\ Http.body answer = Http.body response
    /\ (forall name,
          (forall k v, In (k, v) corsHeaders -> Http.lowercase name <> Http.lowercase k) ->
          Http.get name (Http.headers answer) = Http.get name (Http.headers response))
    /\ (forall name v,
          In (name, v) corsHeaders -> Http.get name (Http.headers answer) = Some v).
Proof.
  intros Hmethod Hroute Htransport. unfold Http.serve.
  destruct (String.eqb_spec (Http.method req) "OPTIONS") as [E|_]; [now elim Hmethod|].
  apply route_is_rewritten_to_mcp in Hroute. rewrite Hroute. cbn [String.eqb negb].
  rewrite Htransport. eexists. split; [reflexivity|].
  cbn [Http.new_Response Http.status Http.statusText Http.body Http.headers].
  repeat split.
  - intros name Hother. now apply cors_overlay_keeps.
  - intros name v Hin. now apply cors_overlay_get.
Qed.

Lemma transport_response_passes_through_witness :
  exists answer,
    Http.serve
      (fun _ => inr {| Http.status := 202;
                       Http.statusText := "Accepted";
                       Http.headers :=
                         [ ("mcp-session-id", "7f3a");
                           ("access-control-allow-origin", "https://example.org") ];
                       Http.body := None |})
      {| Http.method := "POST"; Http.pathname := "/movie-mcp/mcp" |}
    = inr answer
    /\ Http.status answer = 202
    /\ Http.get "Mcp-Session-Id" (Http.headers answer) = Some "7f3a"
    /\ Http.get "Access-Control-Allow-Origin" (Http.headers answer) = Some "*".
Proof.
  assert (Hmethod : "POST" <> "OPTIONS") by discriminate.
  assert (Hroute : mcp_route "/movie-mcp/mcp").
  { right. exists "movie-mcp". split; [discriminate|].
    split; [apply slash_free_by_scan; reflexivity | right; reflexivity]. }
  destruct (transport_response_passes_through
              (fun _ => inr {| Http.status := 202;
                               Http.statusText := "Accepted";
                               Http.headers :=
                                 [ ("mcp-session-id", "7f3a");
                                   ("access-control-allow-origin", "https://example.org") ];
                               Http.body := None |})
              {| Http.method := "POST"; Http.pathname := "/movie-mcp/mcp" |}
              _ Hmethod Hroute eq_refl)
    as (answer & Hserve & Hstatus & _ & _ & Hkeeps & Hcors).
  exists answer. split; [exact Hserve|]. split; [exact Hstatus|]. split.
  - rewrite Hkeeps; [reflexivity|].
    intros k v [E | [E | [E | []]]]; injection E as <- <-; discriminate.
  - apply Hcors. left. reflexivity.
Defined.

(** ** The escaping of the widget *)

Lemma all_chars_app (p : ascii -> bool) (a b : string) :
  all_chars p (a ++ b) = all_chars p a && all_chars p b.
Proof.
  induction a as [|c a IH]; simpl; [reflexivity|].
  now rewrite IH, andb_assoc.
Qed.

Lemma all_chars_at (p : ascii -> bool) (before after : string) (c : ascii) :
  all_chars p (before ++ String c after) = true -> p c = true.
Proof.
  rewrite all_chars_app. simpl. intros H.
  apply andb_true_iff in H as [_ H]. now apply andb_true_iff in H as [H _].
Qed.

(** The five passes of [esc] over a string come to one pass that writes
    each character or its reference. *)
Lemma esc_cons (c : ascii) (s : string) :
  esc (value (String c s)) = char_reference c ++ esc (value s).
Proof.
  unfold esc, char_reference. cbn [nullish_coalesce replaceAll].
  destruct (Ascii.eqb_spec c "&") as [->|_]; [reflexivity|].
  cbn [replaceAll].
  destruct (Ascii.eqb_spec c "<") as [->|_]; [reflexivity|].
  cbn [replaceAll].
  destruct (Ascii.eqb_spec c ">") as [->|_]; [reflexivity|].
  cbn [replaceAll].
  destruct (Ascii.eqb_spec c (ascii_of_nat 34)) as [->|_]; [reflexivity|].
  cbn [replaceAll].
  destruct (Ascii.eqb_spec c "'") as [->|_]; reflexivity.
Qed.

Lemma unescape_reference (c : ascii) (rest : string) :
  unescape (char_reference c ++ rest) = String c (unescape rest).
Proof.
  unfold unescape, char_reference.
  destruct (Ascii.eqb_spec c "&") as [->|Hamp]; [reflexivity|].
  destruct (Ascii.eqb_spec c "<") as [->|_]; [reflexivity|].
  destruct (Ascii.eqb_spec c ">") as [->|_]; [reflexivity|].
  destruct (Ascii.eqb_spec c (ascii_of_nat 34)) as [->|_]; [reflexivity|].
  destruct (Ascii.eqb_spec c "'") as [->|_]; [reflexivity|].
  cbn [append unescape_from]. unfold starts_with. cbn [after_prefix].
  destruct (Ascii.eqb_spec "&" c) as [E|_]; [now elim Hamp | reflexivity].
Qed.

Lemma char_reference_is_safe (c : ascii) :
  all_chars (fun a => negb (ends_text a)) (char_reference c) = true.
Proof.
  unfold char_reference.
  destruct (Ascii.eqb_spec c "&") as [->|_]; [reflexivity|].
  destruct (Ascii.eqb c "<") eqn:E1; [reflexivity|].
  destruct (Ascii.eqb c ">") eqn:E2; [reflexivity|].
  destruct (Ascii.eqb c (ascii_of_nat 34)) eqn:E3; [reflexivity|].
  destruct (Ascii.eqb c "'") eqn:E4; [reflexivity|].
  cbn [all_chars]. unfold ends_text. now rewrite E1, E2, E3, E4.
Qed.

Lemma esc_is_safe (v : nullish string) :
  all_chars (fun a => negb (ends_text a)) (esc v) = true.
Proof.
  destruct v as [| |s]; try reflexivity.
  induction s as [|c s IH]; [reflexivity|].
  now rewrite esc_cons, all_chars_app, char_reference_is_safe, IH.
Qed.

Lemma esc_app (a b : string) :
  esc (value (a ++ b)) = esc (value a) ++ esc (value b).
Proof.
  induction a as [|c a IH]; [reflexivity|].
  change (String c a ++ b) with (String c (a ++ b)).
  now rewrite !esc_cons, IH, append_assoc.
Qed.

(** X7.  Whatever [esc] is given, none of the characters that end a text
    or an attribute value in HTML, the two angle brackets and the two
    quotes, is in what it returns. *)
Theorem esc_leaves_no_delimiter (v : nullish string) (before after : string) (c : ascii) :
  esc v = before ++ String c after ->
  c <> "<"%char /\ c <> ">"%char /\ c <> ascii_of_nat 34 /\ c <> "'"%char.
Proof.
  intros E. pose proof (esc_is_safe v) as Hsafe. rewrite E in Hsafe.
  apply all_chars_at in Hsafe. unfold ends_text in Hsafe.
  apply negb_true_iff in Hsafe.
  repeat (apply orb_false_iff in Hsafe as [Hsafe ?]).
  repeat split; intros ->; discriminate.
Qed.

Lemma esc_leaves_no_delimiter_witness :
  "&"%char <> "<"%char /\ "&"%char <> ">"%char
  /\ "&"%char <> ascii_of_nat 34 /\ "&"%char <> "'"%char.
Proof.
  apply (esc_leaves_no_delimiter (value "<b>") EmptyString "lt;b&gt;" "&"%char).
  reflexivity.
Defined.

(** X8.  Reading the character references back gives the string that
    [esc] was given: nothing of a title, a query or an error is lost or
    merged, and two strings with the same escaped form are the same. *)
Theorem esc_can_be_read_back (s : string) :
  unescape (esc (value s)) = s
  /\ forall s', esc (value s) = esc (value s') -> s = s'.
Proof.
  assert (Hback : forall t, unescape (esc (value t)) = t).
  { induction t as [|c t IH]; [reflexivity|].
    now rewrite esc_cons, unescape_reference, IH. }
  split; [apply Hback|].
  intros s' E. rewrite <- (Hback s), <- (Hback s'). now rewrite E.
Qed.

(** X9.  [esc] works piece by piece: the escaped form of two strings put
    together is their escaped forms put together; a string without any of
    the five characters comes back as it is, and null and undefined come
    back as the empty string. *)
Theorem esc_is_piecewise (a b : string) :
  esc (value (a ++ b)) = esc (value a) ++ esc (value b)
  /\ (all_chars (fun c => negb (Ascii.eqb c "&" || ends_text c)) a = true ->
      esc (value a) = a)
  /\ esc null = EmptyString
  /\ esc undefined = EmptyString.
Proof.
  split; [apply esc_app|]. split; [|split; reflexivity].
  induction a as [|c a IH]; [reflexivity|].
  cbn [all_chars]. intros H. apply andb_true_iff in H as [Hc Ha].
  rewrite esc_cons, (IH Ha). unfold char_reference.
  apply negb_true_iff, orb_false_iff in Hc as [Hamp Hends]. unfold ends_text in Hends.
  apply orb_false_iff in Hends as [Hends H4].
  apply orb_false_iff in Hends as [Hends H3].
  apply orb_false_iff in Hends as [H1 H2].
  now rewrite Hamp, H1, H2, H3, H4.
Qed.

Lemma esc_is_piecewise_witness : esc (value "The Matrix") = "The Matrix".
Proof.
  apply (esc_is_piecewise "The Matrix" EmptyString). reflexivity.
Defined.

(** ** The two handlers, in every world *)

(** The outcomes of a run, path by path: what both handlers send and
    return. *)
Lemma handler_outcomes (w : World) (input : SearchMoviesInput) :
  exists (r : Index.WidgetResponse) (r' : Edge.ToolResult) (sent : list URL),
    run (Index.searchMoviesHandler input) w = (inr r, sent)
    /\ run (Edge.searchMoviesTool input) w = (inr r', sent)
    /\ Props.query (Index.props r) = query input
    /\ Props.query (Edge.structuredContent r') = query input
    /\ Props.movies (Index.props r) = Props.movies (Edge.structuredContent r')
    /\ length (Props.movies (Index.props r)) <= 3
    /\ (truthy (env w "TMDB_API_KEY") = None /\ sent = []
        \/ exists key,
             truthy (env w "TMDB_API_KEY") = Some key
             /\ sent = [search_url key (query input)])
    /\ (Props.error (Index.props r) = Props.error (Edge.structuredContent r')
        \/ exists key response,
             truthy (env w "TMDB_API_KEY") = Some key
             /\ network w (search_url key (query input)) = inr response
             /\ ok response = false
             /\ Props.error (Edge.structuredContent r')
                = Some (status_line (status response))
             /\ Props.error (Index.props r)
                = Some (status_line (status response)
                        ++ trimEnd (error_details response)))
    /\ (Edge.content r' = [ {| Edge.type := "text"; Edge.text := Index.output r |} ]
        \/ truthy (env w "TMDB_API_KEY") = None).
Proof.
  destruct (handler_paths w input)
    as [Hnone | (key & Hkey & [(e & Hthrows) | (response & Hnet & Hcases)])].
  - rewrite (index_missing_key w input Hnone), (edge_missing_key w input Hnone).
    do 3 eexists. repeat split; cbn; auto.
  - rewrite (index_exception w input key Hkey e Hthrows).
    rewrite (edge_exception w input key Hkey e Hthrows).
    do 3 eexists. repeat split; cbn; eauto.
  - destruct Hcases as [Hok | (Hok & body & payload & Hbody & Hfit)].
    + rewrite (index_http_failure w input key Hkey response Hnet Hok).
      rewrite (edge_http_failure w input key Hkey response Hnet Hok).
      do 3 eexists. repeat split; cbn [Props.query Props.movies Index.props
        Edge.structuredContent length Props.error Index.output Edge.content];
        eauto 10.
    + destruct (results payload) as [|m ms] eqn:Hres.
      * rewrite (index_no_results w input key Hkey _ _ _ Hnet Hok Hbody Hfit Hres).
        rewrite (edge_no_results w input key Hkey _ _ _ Hnet Hok Hbody Hfit Hres).
        do 3 eexists. repeat split; cbn; eauto.
      * assert (Hne : results payload <> []) by (rewrite Hres; discriminate).
        rewrite (index_found w input key Hkey _ _ _ Hnet Hok Hbody Hfit Hne).
        rewrite (edge_found w input key Hkey _ _ _ Hnet Hok Hbody Hfit Hne).
        do 3 eexists. repeat split;
          cbn [Props.query Props.movies Index.props Edge.structuredContent
                 Props.error Index.output Edge.content]; eauto.
        rewrite length_map, length_firstn. lia.
Qed.

(** X10.  In every world each handler sends no request when the key is
    missing and otherwise exactly one, never a second: the search URL of
    TMDB with the parameters [api_key], [query] as the query was given,
    [page] 1 and [include_adult] false, in this order. *)
Theorem at_most_one_request (w : World) (input : SearchMoviesInput) :
  (truthy (env w "TMDB_API_KEY") = None
   /\ snd (run (Index.searchMoviesHandler input) w) = []
   /\ snd (run (Edge.searchMoviesTool input) w) = [])
  \/ exists key,
       truthy (env w "TMDB_API_KEY") = Some key
       /\ snd (run (Index.searchMoviesHandler input) w)
          = [ {| href := "https://api.themoviedb.org/3/search/movie";
                 searchParams := [ ("api_key", key); ("query", query input);
                                   ("page", "1"); ("include_adult", "false") ] |} ]
       /\ snd (run (Edge.searchMoviesTool input) w)
          = [ {| href := "https://api.themoviedb.org/3/search/movie";
                 searchParams := [ ("api_key", key); ("query", query input);
                                   ("page", "1"); ("include_adult", "false") ] |} ].
Proof.
  destruct (handler_outcomes w input)
    as (r & r' & sent & Hindex & Hedge & _ & _ & _ & _ & Hsent & _).
  rewrite Hindex, Hedge. cbn [snd].
  destruct Hsent as [(Hnone & ->) | (key & Hkey & ->)].
  - left. now repeat split.
  - right. exists key. now repeat split.
Qed.

(** X11.  In every world, whatever the provider answers, each handler
    returns a payload whose [query] is the query it was given and whose
    [movies] are at most three. *)
Theorem payload_echoes_query_and_is_bounded (w : World) (input : SearchMoviesInput) :
  exists (r : Index.WidgetResponse) (r' : Edge.ToolResult),
    fst (run (Index.searchMoviesHandler input) w) = inr r
    /\ fst (run (Edge.searchMoviesTool input) w) = inr r'
    /\ Props.query (Index.props r) = query input
    /\ Props.query (Edge.structuredContent r') = query input
    /\ length (Props.movies (Index.props r)) <= 3
    /\ length (Props.movies (Edge.structuredContent r')) <= 3.
Proof.
  destruct (handler_outcomes w input)
    as (r & r' & sent & Hindex & Hedge & Hq & Hq' & Hmovies & Hbound & _).
  exists r, r'. rewrite Hindex, Hedge, <- Hmovies. now repeat split.
Qed.

(** X12.  In every world the mcp-use server and the edge function send
    the same requests and return the same query and the same movies.
    Their errors are the same too, except on a response that is not [ok],
    where the error of the edge function is the status line and the one of
    the mcp-use server the status line and the trimmed detail; their texts
    for the model are the same, except when the key is missing. *)
Theorem the_two_handlers_agree (w : World) (input : SearchMoviesInput) :
  exists (r : Index.WidgetResponse) (r' : Edge.ToolResult) (sent : list URL),
    run (Index.searchMoviesHandler input) w = (inr r, sent)
    /\ run (Edge.searchMoviesTool input) w = (inr r', sent)
    /\ Props.query (Index.props r) = Props.query (Edge.structuredContent r')
    /\ Props.movies (Index.props r) = Props.movies (Edge.structuredContent r')
    /\ (Props.error (Index.props r) = Props.error (Edge.structuredContent r')
        \/ exists key response,
             truthy (env w "TMDB_API_KEY") = Some key
             /\ network w (search_url key (query input)) = inr response
             /\ ok response = false
             /\ Props.error (Edge.structuredContent r')
                = Some ("TMDB request failed with status "
                        ++ String_of_nat (status response) ++ ".")
             /\ Props.error (Index.props r)
                = Some (("TMDB request failed with status "
                         ++ String_of_nat (status response) ++ ".")
                        ++ trimEnd (error_details response)))
    /\ (Edge.content r' = [ {| Edge.type := "text"; Edge.text := Index.output r |} ]
        \/ truthy (env w "TMDB_API_KEY") = None).
Proof.
  destruct (handler_outcomes w input)
    as (r & r' & sent & Hindex & Hedge & Hq & Hq' & Hmovies & _ & _ & Herror & Htext).
  exists r, r', sent. rewrite Hq, Hq'. now repeat split.
Qed.

Lemma z_array_rejects {T : Type} (schema : json -> option T) (elements : list json)
  (v : json) :
  In v elements -> schema v = None -> z_array schema elements = None.
Proof.
  induction elements as [|x elements IH]; intros Hin Hbad; [now elim Hin|].
  simpl. destruct Hin as [-> | Hin].
  - now rewrite Hbad.
  - rewrite (IH Hin Hbad). now destruct (schema x).
Qed.

(** X13.  One entry of [results] that does not fit the schema, wherever it
    stands in the array and even past the third, fails the whole search:
    both handlers return no movie at all and the network-or-parsing error
    with the message of the [ZodError]. *)
Theorem one_bad_entry_fails_the_search
  (w : World) (input : SearchMoviesInput) (key : string) (response : Response)
  (fields : list (string * json)) (elements : list json) (v : json) :
  truthy (env w "TMDB_API_KEY") = Some key ->
  network w (search_url key (query input)) = inr response ->
  ok response = true ->
  json_body response = inr (JObject fields) ->
  get_property "results" fields = Some (JArray elements) ->
  In v elements ->
  tmdbMovieSchema v = None ->
  run (Index.searchMoviesHandler input) w
  = (inr {| Index.props :=
              {| Props.query := query input;
                 Props.movies := [];
                 Props.error :=
                   Some ("Unable to fetch movie results right now: "
                         ++ ZodError_message w (JObject fields)) |};
            Index.output := "Movie search failed due to a network or parsing error." |},
     [search_url key (query input)])
  /\ run (Edge.searchMoviesTool input) w
     = (inr {| Edge.content :=
                 [ {| Edge.type := "text";
                      Edge.text := "Movie search failed due to a network or parsing error." |} ];
               Edge.structuredContent :=
                 {| Props.query := query input;
                    Props.movies := [];
                    Props.error :=
                      Some ("Unable to fetch movie results right now: "
                            ++ ZodError_message w (JObject fields)) |} |},
        [search_url key (query input)]).
Proof.
  intros Hkey Hnet Hok Hbody Hres Hin Hbad.
  assert (Hfit : tmdbSearchResponseSchema (JObject fields) = None).
  { unfold tmdbSearchResponseSchema.
    now rewrite Hres, (z_array_rejects tmdbMovieSchema elements v Hin Hbad). }
  pose proof (body_misfit w _ response (JObject fields) Hnet Hok Hbody Hfit) as Hthrows.
  split.
  - exact (index_exception w input key Hkey _ Hthrows).
  - exact (edge_exception w input key Hkey _ Hthrows).
Qed.

Lemma one_bad_entry_fails_the_search_witness :
  fst (run (Index.searchMoviesHandler matrix)
         (world_answering {| status := 200; json_body := inr (search_body bad_fourth_result) |}))
  = inr {| Index.props :=
             {| Props.query := "Matrix";
                Props.movies := [];
                Props.error := Some "Unable to fetch movie results right now: Invalid input" |};
           Index.output := "Movie search failed due to a network or parsing error." |}.
Proof.
  destruct (one_bad_entry_fails_the_search
              (world_answering
                 {| status := 200; json_body := inr (search_body bad_fourth_result) |})
              matrix "secret"
              {| status := 200; json_body := inr (search_body bad_fourth_result) |}
              [ ("page", JNumber 1); ("results", JArray bad_fourth_result) ]
              bad_fourth_result untitled_result
              eq_refl eq_refl eq_refl eq_refl eq_refl
              (or_intror (or_intror (or_intror (or_introl eq_refl))))
              eq_refl) as (Hindex & _).
  rewrite Hindex. reflexivity.
Defined.

Lemma search_throws_transfer (w w' : World) (url : URL) (e : thrown) :
  network w url = network w' url ->
  (forall v, ZodError_message w v = ZodError_message w' v) ->
  search_throws w url e -> search_throws w' url e.
Proof.
  intros Hnet Hzod [e' H | response e' H Hok Hbody | response body H Hok Hbody Hfit];
    rewrite Hnet in H.
  - now apply fetch_rejects.
  - now apply body_not_json with response.
  - rewrite Hzod. now apply body_misfit with response.
Qed.

(** X14.  Of the world, a handler uses the variable [TMDB_API_KEY], the
    answer to the search URL and the message of zod, and nothing else:
    two worlds that agree on these get the same requests and the same
    result, whatever their other variables and the answers at other
    addresses. *)
Theorem handlers_use_only_key_and_search
  (w w' : World) (input : SearchMoviesInput) :
  env w "TMDB_API_KEY" = env w' "TMDB_API_KEY" ->
  (forall key,
      network w (search_url key (query input))
      = network w' (search_url key (query input))) ->
  (forall v, ZodError_message w v = ZodError_message w' v) ->
  run (Index.searchMoviesHandler input) w = run (Index.searchMoviesHandler input) w'
  /\ run (Edge.searchMoviesTool input) w = run (Edge.searchMoviesTool input) w'.
Proof.
  intros Henv Hnetwork Hzod.
  destruct (handler_paths w input)
    as [Hnone | (key & Hkey & [(e & Hthrows) | (response & Hnet & Hcases)])].
  - rewrite (index_missing_key w input Hnone), (edge_missing_key w input Hnone).
    rewrite Henv in Hnone.
    now rewrite (index_missing_key w' input Hnone), (edge_missing_key w' input Hnone).
  - rewrite (index_exception w input key Hkey e Hthrows).
    rewrite (edge_exception w input key Hkey e Hthrows).
    apply (search_throws_transfer w w' _ e (Hnetwork key) Hzod) in Hthrows.
    rewrite Henv in Hkey.
    now rewrite (index_exception w' input key Hkey e Hthrows),
      (edge_exception w' input key Hkey e Hthrows).
  - pose proof Hnet as Hnet'. rewrite (Hnetwork key) in Hnet'.
    pose proof Hkey as Hkey'. rewrite Henv in Hkey'.
    destruct Hcases as [Hok | (Hok & body & payload & Hbody & Hfit)].
    + rewrite (index_http_failure w input key Hkey response Hnet Hok).
      rewrite (edge_http_failure w input key Hkey response Hnet Hok).
      now rewrite (index_http_failure w' input key Hkey' response Hnet' Hok),
        (edge_http_failure w' input key Hkey' response Hnet' Hok).
    + destruct (results payload) as [|m ms] eqn:Hres.
      * rewrite (index_no_results w input key Hkey _ _ _ Hnet Hok Hbody Hfit Hres).
        rewrite (edge_no_results w input key Hkey _ _ _ Hnet Hok Hbody Hfit Hres).
        now rewrite (index_no_results w' input key Hkey' _ _ _ Hnet' Hok Hbody Hfit Hres),
          (edge_no_results w' input key Hkey' _ _ _ Hnet' Hok Hbody Hfit Hres).
      * assert (Hne : results payload <> []) by (rewrite Hres; discriminate).
        rewrite (index_found w input key Hkey _ _ _ Hnet Hok Hbody Hfit Hne).
        rewrite (edge_found w input key Hkey _ _ _ Hnet Hok Hbody Hfit Hne).
        now rewrite (index_found w' input key Hkey' _ _ _ Hnet' Hok Hbody Hfit Hne),
          (edge_found w' input key Hkey' _ _ _ Hnet' Hok Hbody Hfit Hne).
Qed.

Lemma handlers_use_only_key_and_search_witness :
  run (Index.searchMoviesHandler matrix) (world_answering unauthorized)
  = run (Index.searchMoviesHandler matrix) busy_world.
Proof.
  apply (handlers_use_only_key_and_search (world_answering unauthorized) busy_world matrix).
  - reflexivity.
  - intros key. reflexivity.
  - intros v. reflexivity.
Defined.

(** ** The cards *)

Lemma dash_free_nil : dash_free EmptyString.
Proof. intros (a & b & E). now destruct a. Qed.

Lemma dash_free_cons_intro (c : ascii) (s : string) :
  Ascii.eqb c "-" = false -> dash_free s -> dash_free (String c s).
Proof.
  intros Hc Hs (a & b & E). destruct a as [|x a]; simpl in E.
  - inversion E; subst. discriminate.
  - inversion E; subst. apply Hs. now exists a, b.
Qed.

Lemma split_head_dash_free (s : string) :
  exists year segments, split "-" s = year :: segments /\ dash_free year.
Proof.
  induction s as [|c s (year & segments & E & Hfree)]; simpl.
  - exists EmptyString, []. split; [reflexivity | apply dash_free_nil].
  - destruct (Ascii.eqb c "-") eqn:Hc.
    + exists EmptyString, (split "-" s). split; [reflexivity | apply dash_free_nil].
    + rewrite E. exists (String c year), segments.
      split; [reflexivity | now apply dash_free_cons_intro].
Qed.

(** X15.  Whatever the release date, absent, null, empty or any text, the
    release year of a card is never empty and never has a dash in it. *)
Theorem release_year_is_never_empty_nor_dashed (releaseDate : nullish string) :
  formatReleaseYear releaseDate <> EmptyString
  /\ dash_free (formatReleaseYear releaseDate).
Proof.
  assert (Hna : dash_free "N/A") by (apply dash_free_by_scan; reflexivity).
  unfold formatReleaseYear.
  destruct releaseDate as [| |date]; try (split; [discriminate | exact Hna]).
  destruct (string_falsy date); [split; [discriminate | exact Hna]|].
  destruct (split_head_dash_free date) as (year & segments & -> & Hfree).
  destruct year as [|c year]; cbn [string_falsy].
  - split; [discriminate | exact Hna].
  - split; [discriminate | exact Hfree].
Qed.

Lemma append_inv_head (a p q : string) : a ++ p = a ++ q -> p = q.
Proof.
  induction a as [|c a IH]; simpl; intros E; [exact E|].
  inversion E. now apply IH.
Qed.

(** X16.  A poster URL, when a card has one, is the base URL of the image
    CDN followed by a non-empty [poster_path]: it starts with
    [https://image.tmdb.org/], the one domain the widgets allow for
    images, and two paths never give the same URL. *)
Theorem poster_url_stays_on_the_cdn (movie : TmdbMovie) (url : string) :
  Card.posterUrl (mapTmdbMovieToCard movie) = Some url ->
  String.prefix "https://image.tmdb.org/" url = true
  /\ (exists path,
         Raw.poster_path movie = value path
         /\ path <> EmptyString
         /\ url = "https://image.tmdb.org/t/p/w500" ++ path)
  /\ (forall other,
         Card.posterUrl (mapTmdbMovieToCard other) = Some url ->
         Raw.poster_path other = Raw.poster_path movie).
Proof.
  cbn [mapTmdbMovieToCard Card.posterUrl]. unfold buildPosterUrl.
  destruct (Raw.poster_path movie) as [| |path]; try discriminate.
  destruct path as [|c path]; [discriminate|]. cbn [string_falsy].
  intros E. inversion E; subst url. repeat split.
  - exists (String c path). repeat split. discriminate.
  - intros other. destruct (Raw.poster_path other) as [| |path']; try discriminate.
    destruct path' as [|c' path']; [discriminate|]. cbn [string_falsy].
    intros E'. apply (f_equal (fun o => match o with Some u => u | None => EmptyString end)) in E'.
    apply (append_inv_head TMDB_POSTER_BASE_URL (String c' path') (String c path)) in E'.
    now rewrite E'.
Qed.

Lemma poster_url_stays_on_the_cdn_witness :
  String.prefix "https://image.tmdb.org/" "https://image.tmdb.org/t/p/w500/abc.jpg" = true.
Proof.
  apply (poster_url_stays_on_the_cdn
           (the_matrix undefined undefined (value "/abc.jpg"))
           "https://image.tmdb.org/t/p/w500/abc.jpg").
  reflexivity.
Defined.

Local Open Scope Q_scope.

Lemma toFixed1_value_within (x : Q) (a b : Z) :
  a # 10 <= x -> x <= b # 10 ->
  a # 10 <= toFixed1_value x /\ toFixed1_value x <= b # 10.
Proof.
  intros Ha Hb. unfold toFixed1_value.
  pose proof (Qfloor_le (10 * Qabs x + (1 # 2))) as Hlow.
  pose proof (Qlt_floor (10 * Qabs x + (1 # 2))) as Hhigh.
  set (n := Qfloor (10 * Qabs x + (1 # 2))) in *.
  rewrite inject_Z_plus in Hhigh. change (inject_Z 1) with 1 in Hhigh.
  rewrite (tenths a) in Ha. rewrite (tenths b) in Hb.
  destruct (Qle_bool 0 x) eqn:Hsign.
  - apply Qle_bool_iff in Hsign. pose proof (Qabs_pos x Hsign) as Habs.
    assert (Han : (a <= n)%Z).
    { destruct (Z_gap a n) as [H|H]; [exact H|]. set (q := Qabs x) in *. lra. }
    assert (Hnb : (n <= b)%Z).
    { destruct (Z_gap n b) as [H|H]; [exact H|]. set (q := Qabs x) in *. lra. }
    unfold Qle. cbn [Qnum Qden]. lia.
  - assert (Hneg : x <= 0).
    { apply Qlt_le_weak, Qnot_le_lt. intros Hle.
      apply Qle_bool_iff in Hle. congruence. }
    pose proof (Qabs_neg x Hneg) as Habs.
    assert (Han : (a <= - n)%Z).
    { destruct (Z_gap a (- n)) as [H|H]; [exact H|].
      rewrite inject_Z_opp in H. set (q := Qabs x) in *. lra. }
    assert (Hnb : (- n <= b)%Z).
    { destruct (Z_gap (- n) b) as [H|H]; [exact H|].
      rewrite inject_Z_opp in H. set (q := Qabs x) in *. lra. }
    unfold Qle, Qopp. cbn [Qnum Qden]. lia.
Qed.

Lemma binary64_integer (k : Z) : (Z.abs k < 2 ^ 53)%Z -> binary64 (inject_Z k).
Proof.
  intros Hk. exists k, 0%Z. split; [exact Hk|]. split; [lia|].
  change (2 ^ 0) with 1. ring.
Qed.

(** Rounding to binary64 does not step over a whole number. *)
Lemma binary64_round_within (d : Q) (lo hi : Z) :
  (Z.abs lo < 2 ^ 53)%Z -> (Z.abs hi < 2 ^ 53)%Z ->
  inject_Z lo <= d -> d <= inject_Z hi ->
  inject_Z lo <= binary64_round d /\ binary64_round d <= inject_Z hi.
Proof.
  intros Hlo Hhi Hd1 Hd2.
  pose proof (binary64_round_nearest d _ (binary64_integer lo Hlo)) as Hnear_lo.
  pose proof (binary64_round_nearest d _ (binary64_integer hi Hhi)) as Hnear_hi.
  set (r := binary64_round d) in *. set (L := inject_Z lo) in *. set (H := inject_Z hi) in *.
  split.
  - destruct (Qlt_le_dec r L) as [Hbad|]; [exfalso | assumption].
    revert Hnear_lo. apply (Qabs_case (r - d)); intros H1;
      apply (Qabs_case (L - d)); intros H2 H3; lra.
  - destruct (Qlt_le_dec H r) as [Hbad|]; [exfalso | assumption].
    revert Hnear_hi. apply (Qabs_case (r - d)); intros H1;
      apply (Qabs_case (H - d)); intros H2 H3; lra.
Qed.

Lemma Number_toFixed1_within (x : Q) (lo hi : Z) :
  (Z.abs lo < 2 ^ 53)%Z -> (Z.abs hi < 2 ^ 53)%Z ->
  inject_Z lo <= x -> x <= inject_Z hi ->
  inject_Z lo <= Number_toFixed1 x /\ Number_toFixed1 x <= inject_Z hi.
Proof.
  intros Hlo Hhi Hx1 Hx2. unfold Number_toFixed1.
  destruct (Qle_bool (10 ^ 21) (Qabs x)); [now split|].
  assert (Ea : 10 * lo # 10 == inject_Z lo).
  { unfold Qeq, inject_Z. cbn [Qnum Qden]. lia. }
  assert (Eb : 10 * hi # 10 == inject_Z hi).
  { unfold Qeq, inject_Z. cbn [Qnum Qden]. lia. }
  destruct (toFixed1_value_within x (10 * lo) (10 * hi)) as [Hd1 Hd2];
    [now rewrite Ea | now rewrite Eb |].
  rewrite Ea in Hd1. rewrite Eb in Hd2.
  now apply binary64_round_within.
Qed.





Local Close Scope Q_scope.

(** X17.  Rounding keeps a rating between any two whole numbers that
    [vote_average] is between: a [vote_average] from 0 to 10, the range of
    TMDB, gives a rating from 0 to 10. *)
Theorem rating_stays_in_range (movie : TmdbMovie) (x : Q) (lo hi : Z) :
  Raw.vote_average movie = value x ->
  (Z.abs lo < 2 ^ 53)%Z ->
  (Z.abs hi < 2 ^ 53)%Z ->
  (inject_Z lo <= x)%Q ->
  (x <= inject_Z hi)%Q ->
  (inject_Z lo <= Card.rating (mapTmdbMovieToCard movie))%Q
  /\ (Card.rating (mapTmdbMovieToCard movie) <= inject_Z hi)%Q.
Proof.
  cbn [mapTmdbMovieToCard Card.rating]. intros -> Hlo Hhi Hx1 Hx2.
  now apply Number_toFixed1_within.
Qed.

Lemma rating_stays_in_range_witness :
  (inject_Z 0 <= Card.rating
                   (mapTmdbMovieToCard (the_matrix undefined (value seven_point_666) undefined)))%Q
  /\ (Card.rating
        (mapTmdbMovieToCard (the_matrix undefined (value seven_point_666) undefined))
      <= inject_Z 10)%Q.
Proof.
  apply (rating_stays_in_range
           (the_matrix undefined (value seven_point_666) undefined)
           seven_point_666 0 10 eq_refl).
  - reflexivity.
  - reflexivity.
  - discriminate.
  - discriminate.
Defined.



Lemma only_mcp_routes_reach_the_transport_witness :
  Http.serve
    (fun _ => inr {| Http.status := 202;
                     Http.statusText := "Accepted";
                     Http.headers :=
                       [ ("mcp-session-id", "7f3a");
                         ("access-control-allow-origin", "https://example.org") ];
                     Http.body := None |})
    {| Http.method := "POST"; Http.pathname := "/functions/v1/movie-mcp/mcp" |}
  = inr {| Http.status := 202;
           Http.statusText := "Accepted";
           Http.headers :=
             [ ("mcp-session-id", "7f3a");
               ("access-control-allow-origin", "*");
               ("access-control-allow-headers",
                "authorization, x-client-info, apikey, content-type, mcp-session-id, mcp-protocol-version, last-event-id");
               ("access-control-allow-methods", "GET,POST,DELETE,OPTIONS") ];
           Http.body := None |}.
Proof.
  assert (Hmethod : "POST" <> "OPTIONS") by discriminate.
  assert (Hroute : mcp_route "/functions/v1/movie-mcp/mcp").
  { right. exists "movie-mcp". split; [discriminate|].
    split; [apply slash_free_by_scan; reflexivity | left; reflexivity]. }
  destruct (only_mcp_routes_reach_the_transport
              (fun _ => inr {| Http.status := 202;
                               Http.statusText := "Accepted";
                               Http.headers :=
                                 [ ("mcp-session-id", "7f3a");
                                   ("access-control-allow-origin", "https://example.org") ];
                               Http.body := None |})
              {| Http.method := "POST"; Http.pathname := "/functions/v1/movie-mcp/mcp" |})
    as (_ & _ & Hanswer).
  exact (Hanswer Hmethod Hroute).
Defined.
